(** * simple_database: the transactional key-value store of [database.py]

    A shallow embedding of the [Database] class: the committed table
    [self.database], the counter table [self.value_count] (a
    [defaultdict(int)]) and the list of pending transaction blocks
    [self.pending_transactions_list], whose last element is the current
    block.  Every method is a function from a store to the store it
    leaves behind and the lines it prints. *)

From stdpp Require Import gmap strings list fin_maps.
From Stdlib Require Import ZArith Lia.

Open Scope string_scope.
Open Scope list_scope.
Open Scope Z_scope.

(** ** Data model *)

(** One pending transaction block: a dict from keys to a value, or to
    [None] for a key unset inside the block. *)
Abbreviation overlay := (gmap string (option string)).

Record Database := mkDatabase {
  database : gmap string string;
  value_count : gmap string Z;
  pending_transactions_list : list overlay
}.

(** [Database.__init__] *)
Definition init : Database :=
  {| database := ∅; value_count := ∅; pending_transactions_list := [] |}.

(** What a method prints, one item per [print] statement. *)
Inductive output :=
| OutValue (v : string)
| OutNull
| OutCount (n : Z)
| OutNoTransaction.

(** ** Python primitives used by the methods *)

(** Truth value of [orig_val], the result of [dict.get]: [None] and the
    empty string are false, every other string is true. *)
Definition truthy (o : option string) : bool :=
  match o with
  | None => false
  | Some v => bool_decide (v ≠ "")
  end.

(** [d[v]] on a [defaultdict(int)] read for its value. *)
Definition vc_get (vc : gmap string Z) (v : string) : Z :=
  default 0 (vc !! v).

(** The side effect of reading [d[v]] on a [defaultdict(int)]: a missing
    key is inserted with the default [0]. *)
Definition vc_touch (vc : gmap string Z) (v : string) : gmap string Z :=
  match vc !! v with
  | Some _ => vc
  | None => <[v := 0]> vc
  end.

(** [d[v] += n] on a [defaultdict(int)]. *)
Definition vc_add (vc : gmap string Z) (v : string) (n : Z) : gmap string Z :=
  <[v := vc_get vc v + n]> vc.

(** [l[-1][key] = e] on a non-empty list of dicts; on the empty list the
    source never executes it. *)
Fixpoint set_last (l : list overlay) (key : string) (e : option string)
  : list overlay :=
  match l with
  | [] => []
  | [t] => [<[key := e]> t]
  | t :: l' => t :: set_last l' key e
  end.

(** [for key in d]: the keys of a dict, each once.  Python leaves the
    order to the table; the model takes the order of [map_to_list]. *)
Definition keys {V} (d : gmap string V) : list string :=
  (map_to_list d).*1.

(** [l.remove(x)]: drops the first occurrence. *)
Fixpoint list_remove (x : string) (l : list string) : list string :=
  match l with
  | [] => []
  | y :: l' => if decide (x = y) then l' else y :: list_remove x l'
  end.

(** ** The methods of [Database] *)

(** Truth value of a list: false exactly for the empty one. *)
Definition nonempty {A} (l : list A) : bool :=
  match l with
  | [] => false
  | _ :: _ => true
  end.

(** [Database.set] *)
Definition set_ (self : Database) (key value : string) (commit : bool)
  : Database :=
  let orig_val := database self !! key in
  let self1 :=
    if nonempty (pending_transactions_list self) && negb commit
    then mkDatabase (database self) (value_count self)
           (set_last (pending_transactions_list self) key (Some value))
    else mkDatabase (<[key := value]> (database self)) (value_count self)
           (pending_transactions_list self) in
  if negb commit then
    let vc1 := vc_add (value_count self1) value 1 in
    let vc2 :=
      if truthy orig_val && bool_decide (orig_val ≠ Some value)
      then vc_add vc1 (default "" orig_val) (-1)
      else vc1 in
    mkDatabase (database self1) vc2 (pending_transactions_list self1)
  else self1.

(** The loop of [Database.get] over the blocks, given innermost first:
    the entry of the first block that has the key ends the search. *)
Fixpoint get_loop (ts : list overlay) (key : string)
  : option (option string) :=
  match ts with
  | [] => None
  | transaction :: ts' =>
      match transaction !! key with
      | Some e => Some e
      | None => get_loop ts' key
      end
  end.

Definition get_pending (l : list overlay) (key : string)
  : option (option string) :=
  get_loop (reverse l) key.

(** The line [get] prints for what it found: the value, or NULL. *)
Definition print_value (o : option string) : output :=
  match o with
  | Some v => OutValue v
  | None => OutNull
  end.

(** What [Database.get] finds: [None] stands for the line [NULL]. *)
Definition get_result (self : Database) (key : string) : option string :=
  match get_pending (pending_transactions_list self) key with
  | Some e => e
  | None => database self !! key
  end.

(** [Database.get] *)
Definition get (self : Database) (key : string) : Database * list output :=
  (self, [print_value (get_result self key)]).

(** [Database.unset] *)
Definition unset (self : Database) (key : string) (commit : bool)
  : Database :=
  let orig_val := database self !! key in
  let self1 :=
    if nonempty (pending_transactions_list self) && negb commit
    then mkDatabase (database self) (value_count self)
           (set_last (pending_transactions_list self) key None)
    else if truthy orig_val
    then mkDatabase (delete key (database self)) (value_count self)
           (pending_transactions_list self)
    else self in
  if negb commit && truthy orig_val then
    let v := default "" orig_val in
    let vc1 := vc_touch (value_count self1) v in
    if bool_decide (0 < vc_get vc1 v)
    then mkDatabase (database self1) (vc_add vc1 v (-1))
           (pending_transactions_list self1)
    else mkDatabase (database self1) vc1 (pending_transactions_list self1)
  else self1.

(** The number [Database.numequalto] prints. *)
Definition numequalto_result (self : Database) (value : string) : Z :=
  match value_count self !! value with
  | Some n => n
  | None => 0
  end.

(** [Database.numequalto] *)
Definition numequalto (self : Database) (value : string)
  : Database * list output :=
  (self, [OutCount (numequalto_result self value)]).

(** [Database.begin] *)
Definition begin (self : Database) : Database :=
  mkDatabase (database self) (value_count self)
    (pending_transactions_list self ++ [∅]).

(** The second loop of [Database.rollback]: every key of a remaining
    block is removed from [keys_to_update]. *)
Definition prune_block (keys_to_update : list string) (pending : overlay)
  : list string :=
  foldl (λ ktu pending_key,
           if bool_decide (pending_key ∈ ktu) then list_remove pending_key ktu
           else ktu)
        keys_to_update (keys pending).

Definition prune (keys_to_update : list string) (rest : list overlay)
  : list string :=
  foldl prune_block keys_to_update rest.

(** One round of the last loop of [Database.rollback].  The key comes
    from [keys_to_update], so [transaction] has it. *)
Definition repair_key (db : gmap string string) (transaction : overlay)
    (vc : gmap string Z) (key : string) : gmap string Z :=
  let orig_val := db !! key in
  let vc1 := if truthy orig_val then vc_add vc (default "" (db !! key)) 1
             else vc in
  match transaction !! key with
  | Some (Some v) => vc_add vc1 v (-1)
  | _ => vc1
  end.

(** [Database.rollback] *)
Definition rollback (self : Database) : Database * list output :=
  match last (pending_transactions_list self) with
  | Some transaction =>
      let rest := removelast (pending_transactions_list self) in
      let keys_to_update := prune (keys transaction) rest in
      (mkDatabase (database self)
         (foldl (repair_key (database self) transaction)
            (value_count self) keys_to_update)
         rest, [])
  | None => (self, [OutNoTransaction])
  end.

(** One round of the inner loop of [Database.commit]. *)
Definition commit_key (transaction : overlay)
    (acc : Database * list string) (key : string) : Database * list string :=
  let '(self, keys_processed) := acc in
  if bool_decide (key ∈ keys_processed) then acc
  else
    let self' :=
      match transaction !! key with
      | Some None => unset self key true
      | Some (Some v) => set_ self key v true
      | None => self
      end in
    (self', keys_processed ++ [key]).

Definition commit_block (acc : Database * list string) (transaction : overlay)
  : Database * list string :=
  foldl (commit_key transaction) acc (keys transaction).

(** [Database.commit] *)
Definition commit (self : Database) : Database * list output :=
  if nonempty (pending_transactions_list self) then
    let self' :=
      (foldl commit_block (self, []) (reverse (pending_transactions_list self))).1 in
    (mkDatabase (database self') (value_count self') [], [])
  else (self, [OutNoTransaction]).

(** ** The command loop *)

(** The calls of the methods with the parameter [commit] left at its
    default. *)
Inductive command :=
| SET (key value : string)
| GET (key : string)
| UNSET (key : string)
| NUMEQUALTO (value : string)
| BEGIN
| ROLLBACK
| COMMIT.

Definition exec (self : Database) (c : command) : Database * list output :=
  match c with
  | SET key value => (set_ self key value false, [])
  | GET key => get self key
  | UNSET key => (unset self key false, [])
  | NUMEQUALTO value => numequalto self value
  | BEGIN => (begin self, [])
  | ROLLBACK => rollback self
  | COMMIT => commit self
  end.

(** The store after a sequence of commands. *)
Definition run (self : Database) (cs : list command) : Database :=
  foldl (λ s c, (exec s c).1) self cs.

(** Everything printed while running a sequence of commands. *)
Fixpoint run_output (self : Database) (cs : list command) : list output :=
  match cs with
  | [] => []
  | c :: cs' => (exec self c).2 ++ run_output (exec self c).1 cs'
  end.

(** ** Properties named by the specification *)

(** No value of the committed table is the empty string, the one string
    that [set] and [unset] take for false. *)
Definition base_values_nonempty (self : Database) : Prop :=
  ∀ k v, database self !! k = Some v → v ≠ "".

(** No block of [rest] has an entry for [k]. *)
Definition untouched (rest : list overlay) (k : string) : Prop :=
  Forall (λ t : overlay, t !! k = None) rest.

#[global] Instance untouched_dec rest k : Decision (untouched rest k).
Proof. unfold untouched. apply _. Defined.

(** Every key some table of the store mentions. *)
Definition all_keys (self : Database) : gset string :=
  dom (database self) ∪ ⋃ (dom <$> pending_transactions_list self).

(** The number of keys [k] for which [get k] prints [v]. *)
Definition keys_equal_to (self : Database) (v : string) : Z :=
  Z.of_nat (length (filter (λ k, get_result self k = Some v)
                      (elements (all_keys self)))).

(** The store with its innermost block dropped and nothing else changed. *)
Definition popped (self : Database) : Database :=
  mkDatabase (database self) (value_count self)
    (removelast (pending_transactions_list self)).

(** [1] when [o] is the value [u], else [0]. *)
Definition indicator (o : option string) (u : string) : Z :=
  if decide (o = Some u) then 1 else 0.

(** The change to the count of [u] when each key of [ks] moves from its
    value under [before] to its value under [after]: the old value loses
    one, the new value gains one, an absent side counts for nothing. *)
Definition delta_sum (ks : list string) (before after : string → option string)
    (u : string) : Z :=
  foldr (λ k acc, indicator (after k) u - indicator (before k) u + acc) 0 ks.

(** [rollback] repairs the index for exactly the keys [ks]: each count
    changes by the delta between the effective values with the innermost
    block and without it. *)
Definition rollback_repairs_keys (ks : list string) (self : Database) : Prop :=
  ∀ u, numequalto_result (rollback self).1 u
       = numequalto_result self u
         + delta_sum ks (get_result self) (get_result (popped self)) u.

(** The store after [begin(); set(k, v); rollback()]. *)
Definition begin_set_rollback (self : Database) (k v : string) : Database :=
  (rollback (set_ (begin self) k v false)).1.

(** ** [commit] applied to one key *)

(** The committed table's entry for a key after [commit] has applied the
    entry [e] of a block to it: a value is written, a tombstone deletes
    what [unset] sees as present. *)
Definition apply_entry (e : option (option string)) (o : option string)
  : option string :=
  match e with
  | Some (Some v) => Some v
  | Some None => if truthy o then None else o
  | None => o
  end.

(** ** Stores without empty values *)

(** No entry of the block is the empty string. *)
Definition block_values_nonempty (t : overlay) : Prop :=
  ∀ k v, t !! k = Some (Some v) → v ≠ "".

(** No stored value, committed or pending, is the empty string. *)
Definition values_nonempty (self : Database) : Prop :=
  base_values_nonempty self
  ∧ Forall block_values_nonempty (pending_transactions_list self).

(** A [SET] that passes a non-empty value. *)
Definition command_ok (c : command) : Prop :=
  match c with
  | SET _ value => value ≠ ""
  | _ => True
  end.

(** ** Example stores *)

(** Two committed keys, an outer block that sets one of them and an inner
    block that unsets the other. *)
Definition nested_store : Database :=
  run init [SET "a" "10"; SET "b" "10"; BEGIN; SET "a" "20"; BEGIN; UNSET "b"].

(** One key set in an outer block and set again in the inner block. *)
Definition shadowed_store : Database :=
  run init [BEGIN; SET "a" "10"; BEGIN; SET "a" "20"].

(** One key set in an open block. *)
Definition open_block_store : Database :=
  run init [BEGIN; SET "a" "10"].

(** One committed key. *)
Definition committed_store : Database :=
  run init [SET "a" "10"].

(** A committed key set again inside a block. *)
Definition overwritten_store : Database :=
  run init [SET "a" "10"; BEGIN; SET "a" "20"].

(** Two committed keys with one value, one of them unset inside a block. *)
Definition unset_once_store : Database :=
  run init [SET "a" "10"; SET "b" "10"; BEGIN; UNSET "a"].

(** [rollback] as the spec describes it: it repairs the index for every key
    of the dropped block. *)
Definition rollback_repairs_all_keys (self : Database) : Prop :=
  ∀ transaction,
    last (pending_transactions_list self) = Some transaction →
    rollback_repairs_keys (keys transaction) self.

(** The round trip as the spec describes it: [begin(); set(k, v); rollback()] restores
    what [get k] and every [numequalto] print. *)
Definition restores_reads (self : Database) (k v : string) : Prop :=
  get_result (begin_set_rollback self k v) k = get_result self k
  ∧ ∀ u, numequalto_result (begin_set_rollback self k v) u
         = numequalto_result self u.

(** ** Counting keys *)

(** The number of keys of [X] that satisfy [P]. *)
Definition count_keys (P : string → Prop) `{!∀ k, Decision (P k)}
    (X : gset string) : Z :=
  Z.of_nat (length (filter P (elements X))).

(** A command sequence run outside any transaction in which no [SET] gives
    a key the value the committed table already holds for it, and no
    [SET] passes the empty string. *)
Definition plain_command (self : Database) (c : command) : Prop :=
  match c with
  | SET key value => value ≠ "" ∧ database self !! key ≠ Some value
  | BEGIN => False
  | _ => True
  end.

Fixpoint plain_commands (self : Database) (cs : list command) : Prop :=
  match cs with
  | [] => True
  | c :: cs' => plain_command self c ∧ plain_commands (exec self c).1 cs'
  end.

(** The commands that leave the number of pending blocks alone. *)
Definition block_command (c : command) : Prop :=
  match c with
  | SET _ _ | UNSET _ | GET _ | NUMEQUALTO _ => True
  | BEGIN | ROLLBACK | COMMIT => False
  end.

(** The index agrees with the committed table, no transaction is in
    progress and no committed value is empty. *)
Definition index_consistent (self : Database) : Prop :=
  pending_transactions_list self = []
  ∧ base_values_nonempty self
  ∧ ∀ v, numequalto_result self v = keys_equal_to self v.

(** ** The program's read loop *)

(** [c.isspace()] for a byte, as [str.strip()] uses it: the space and the
    control characters 9 to 13. *)
Definition py_isspace (a : Ascii.ascii) : bool :=
  let n := Ascii.N_of_ascii a in
  ((n =? 32) || ((9 <=? n) && (n <=? 13)))%N.

(** [s.lstrip()] *)
Fixpoint lstrip (s : string) : string :=
  match s with
  | EmptyString => EmptyString
  | String a s' => if py_isspace a then lstrip s' else s
  end.

(** [s.rstrip()] *)
Fixpoint rstrip (s : string) : string :=
  match s with
  | EmptyString => EmptyString
  | String a s' =>
      match rstrip s' with
      | EmptyString => if py_isspace a then EmptyString else String a EmptyString
      | r => String a r
      end
  end.

(** [s.strip()] *)
Definition strip (s : string) : string := rstrip (lstrip s).

(** [s.split(' ')]: the pieces between single spaces, empty pieces kept;
    the result always has at least one piece. *)
Fixpoint split_space (s : string) : list string :=
  match s with
  | EmptyString => [EmptyString]
  | String a s' =>
      if decide (a = Ascii.Space) then EmptyString :: split_space s'
      else match split_space s' with
           | tok :: rest => String a tok :: rest
           | [] => [String a EmptyString]
           end
  end.

(** [s.lower()] on bytes: the letters A to Z move to a to z. *)
Definition lower_ascii (a : Ascii.ascii) : Ascii.ascii :=
  let n := Ascii.N_of_ascii a in
  if ((65 <=? n) && (n <=? 90))%N then Ascii.ascii_of_N (n + 32) else a.

Fixpoint lower (s : string) : string :=
  match s with
  | EmptyString => EmptyString
  | String a s' => String (lower_ascii a) (lower s')
  end.

(** Truth value of a string passed for the parameter [commit]. *)
Definition py_true (s : string) : bool := bool_decide (s ≠ "").

Definition valid_command_list : list string :=
  ["set"; "get"; "unset"; "numequalto"; "begin"; "rollback"; "commit"].

(** A line the program prints: one of a method, or one of the two
    messages of the loop. *)
Inductive printed :=
| Printed (o : output)
| InvalidArguments
| InvalidVerb.

(** [db_method(data, *argument_row[1:])] for a command of
    [valid_command_list]; [None] stands for the [TypeError] of a call
    whose number of arguments fits no signature. *)
Definition call_method (data : Database) (command : string)
    (args : list string) : option (Database * list output) :=
  if decide (command = "set") then
    match args with
    | [key; value] => Some (set_ data key value false, [])
    | [key; value; c] => Some (set_ data key value (py_true c), [])
    | _ => None
    end
  else if decide (command = "get") then
    match args with
    | [key] => Some (get data key)
    | _ => None
    end
  else if decide (command = "unset") then
    match args with
    | [key] => Some (unset data key false, [])
    | [key; c] => Some (unset data key (py_true c), [])
    | _ => None
    end
  else if decide (command = "numequalto") then
    match args with
    | [value] => Some (numequalto data value)
    | _ => None
    end
  else if decide (command = "begin") then
    match args with
    | [] => Some (begin data, [])
    | _ => None
    end
  else if decide (command = "rollback") then
    match args with
    | [] => Some (rollback data)
    | _ => None
    end
  else if decide (command = "commit") then
    match args with
    | [] => Some (commit data)
    | _ => None
    end
  else None.

(** The body of the [while] loop for one stripped line. *)
Definition process_line (data : Database) (line : string)
  : Database * list printed :=
  let argument_row := split_space line in
  let command := lower (hd "" argument_row) in
  if bool_decide (command ∈ valid_command_list) then
    match call_method data command (tail argument_row) with
    | Some (data', out) => (data', Printed <$> out)
    | None => (data, [InvalidArguments])
    end
  else (data, [InvalidVerb]).

(** How the program ends: at a line END, or with the [EOFError] of
    [raw_input] when the input runs out. *)
Inductive ending := Ended | EOFError.

(** The program from its first [raw_input] on, over the lines of the
    input. *)
Fixpoint main_loop (data : Database) (lines : list string)
  : Database * list printed * ending :=
  match lines with
  | [] => (data, [], EOFError)
  | raw :: rest =>
      let line := strip raw in
      if bool_decide (line ∈ ["END"; "end"]) then (data, [], Ended)
      else
        let '(data', out) := process_line data line in
        let '(data'', out', e) := main_loop data' rest in
        (data'', out ++ out', e)
  end.

(** The last byte of a string. *)
Fixpoint last_char (s : string) : option Ascii.ascii :=
  match s with
  | EmptyString => None
  | String a s' =>
      match last_char s' with
      | None => Some a
      | Some b => Some b
      end
  end.

(** The numbers of arguments after [self] that the signature of a method
    accepts: [set(self, key, value, commit=False)],
    [unset(self, key, commit=False)], one argument for [get] and
    [numequalto], none for [begin], [rollback] and [commit]. *)
Definition accepted_arities (command : string) : list nat :=
  if decide (command = "set") then [2; 3]%nat
  else if decide (command = "unset") then [1; 2]%nat
  else if decide (command = "get") then [1]%nat
  else if decide (command = "numequalto") then [1]%nat
  else [0]%nat.

(** The store and the lines printed after the loop body has run on each
    of the lines. *)
Fixpoint process_lines (data : Database) (lines : list string)
  : Database * list printed :=
  match lines with
  | [] => (data, [])
  | raw :: rest =>
      let '(data', out) := process_line data (strip raw) in
      let '(data'', out') := process_lines data' rest in
      (data'', out ++ out')
  end.

(** Whether a string has a space in it. *)
Fixpoint has_space (s : string) : bool :=
  match s with
  | EmptyString => false
  | String a s' => bool_decide (a = Ascii.Space) || has_space s'
  end.

(** ** Values a store can hold *)

(** Every value of the committed table, of the pending blocks and every
    key of the counter table satisfies [ok]. *)
Definition stored_values_satisfy (ok : string → Prop) (self : Database) : Prop :=
  (∀ k v, database self !! k = Some v → ok v)
  ∧ Forall (λ t : overlay, ∀ k v, t !! k = Some (Some v) → ok v)
      (pending_transactions_list self)
  ∧ ∀ v, is_Some (value_count self !! v) → ok v.

(** The value a [SET] passes satisfies [ok]. *)
Definition set_value_satisfies (ok : string → Prop) (c : command) : Prop :=
  match c with
  | SET _ value => ok value
  | _ => True
  end.

(** ** What the program can reach *)

(** The store the program holds after the lines [SET a  x] (two spaces
    after the key: an empty value and a flag), [BEGIN] and [UNSET a]. *)
Definition empty_value_store : Database :=
  (process_lines init ["SET a  x"; "BEGIN"; "UNSET a"]).1.

(** The text of the line [get] prints for what it found. *)
Definition printed_text (o : option string) : string :=
  match o with
  | Some v => v
  | None => "NULL"
  end.

(** The stripped line has a spelling of "set" as its first piece and [v]
    as its third, the place of the value. *)
Definition line_sets_value (v raw : string) : Prop :=
  ∃ c key rest, split_space (strip raw) = c :: key :: v :: rest
                ∧ lower c = "set".

(** Whether a string has a byte that [strip] removes. *)
Fixpoint has_whitespace (s : string) : bool :=
  match s with
  | EmptyString => false
  | String a s' => py_isspace a || has_whitespace s'
  end.

(** * Proofs *)

(** The scenario of the spec's section 8. *)
Example scenario :
  run_output init
    [SET "a" "10"; SET "b" "10"; NUMEQUALTO "10"; UNSET "a"; NUMEQUALTO "10";
     BEGIN; SET "b" "30"; NUMEQUALTO "10"; NUMEQUALTO "30"; ROLLBACK; GET "b"]
  = [OutCount 2; OutCount 1; OutCount 0; OutCount 1; OutValue "10"].
Proof. vm_compute. reflexivity. Qed.

(** ** Lemmas on the primitives *)

Section primitives.
Implicit Types (vc : gmap string Z) (l : list overlay) (t : overlay).

Lemma numequalto_result_vc_get self v :
  numequalto_result self v = vc_get (value_count self) v.
Proof. unfold numequalto_result, vc_get. by destruct (_ !! v). Qed.

Lemma vc_get_add vc v n u :
  vc_get (vc_add vc v n) u = vc_get vc u + (if decide (v = u) then n else 0).
Proof.
  unfold vc_add, vc_get at 1. rewrite lookup_insert.
  destruct (decide (v = u)) as [->|]; simpl; [done|].
  unfold vc_get. lia.
Qed.

Lemma vc_get_touch vc v u : vc_get (vc_touch vc v) u = vc_get vc u.
Proof.
  unfold vc_touch. destruct (vc !! v) eqn:E; [done|].
  unfold vc_get. rewrite lookup_insert.
  destruct (decide (v = u)) as [->|]; simpl; [by rewrite E | done].
Qed.

Lemma truthy_Some o : truthy o = true → ∃ v, o = Some v ∧ v ≠ "".
Proof.
  destruct o as [v|]; simpl; [|done].
  intros H%bool_decide_eq_true. eauto.
Qed.

Lemma set_last_snoc l t key e :
  set_last (l ++ [t]) key e = l ++ [<[key := e]> t].
Proof.
  induction l as [|t' l IH]; [done|].
  simpl. rewrite IH. by destruct l.
Qed.

Lemma nonempty_snoc {A} (l : list A) x : nonempty (l ++ [x]) = true.
Proof. by destruct l. Qed.

Lemma last_removelast l t :
  last l = Some t → l = removelast l ++ [t].
Proof.
  destruct l as [|t0 l] using rev_ind; [done|].
  rewrite last_snoc, removelast_last. by intros [= ->].
Qed.

Lemma get_loop_app l1 l2 key :
  get_loop (l1 ++ l2) key
  = match get_loop l1 key with
    | Some e => Some e
    | None => get_loop l2 key
    end.
Proof.
  induction l1 as [|t l1 IH]; [done|].
  simpl. by destruct (t !! key).
Qed.

Lemma get_loop_untouched l key : untouched l key → get_loop l key = None.
Proof. induction 1 as [|t l Ht _ IH]; [done|]. simpl. by rewrite Ht. Qed.

Lemma get_pending_snoc l t key :
  get_pending (l ++ [t]) key
  = match t !! key with
    | Some e => Some e
    | None => get_pending l key
    end.
Proof. unfold get_pending. by rewrite reverse_snoc. Qed.

Lemma get_pending_untouched l key :
  untouched l key → get_pending l key = None.
Proof.
  intros H. apply get_loop_untouched. unfold untouched in *.
  by apply Forall_reverse.
Qed.

Lemma elem_of_keys {V} (d : gmap string V) k :
  k ∈ keys d ↔ is_Some (d !! k).
Proof.
  unfold keys. rewrite list_elem_of_fmap. split.
  - intros [[k' v] [-> H%elem_of_map_to_list]]. eauto.
  - intros [v H]. exists (k, v). split; [done|]. by apply elem_of_map_to_list.
Qed.

Lemma NoDup_keys {V} (d : gmap string V) : NoDup (keys d).
Proof. apply NoDup_fst_map_to_list. Qed.
End primitives.

(** ** Reads: [get] and [numequalto] *)

Lemma get_output self key : (get self key).2 = [print_value (get_result self key)].
Proof. done. Qed.

Lemma get_result_hit self outer t inner key e :
  pending_transactions_list self = outer ++ t :: inner →
  untouched inner key →
  t !! key = Some e →
  get_result self key = e.
Proof.
  intros Hl Hin Ht. unfold get_result, get_pending.
  rewrite Hl, reverse_app, reverse_cons, <- app_assoc, get_loop_app.
  rewrite (get_loop_untouched (reverse inner)) by by apply Forall_reverse.
  simpl. by rewrite Ht.
Qed.

Lemma get_result_base self key :
  untouched (pending_transactions_list self) key →
  get_result self key = database self !! key.
Proof. intros H. unfold get_result. by rewrite get_pending_untouched. Qed.

(** C6: [get] prints the effective value of the key.  The innermost
    block that has an entry for the key decides, a tombstone printing
    NULL whatever the outer blocks and the committed table hold; when no
    block has an entry the committed table decides, and a key it lacks
    prints NULL.  The store that [get] leaves is the store it was given. *)
Theorem get_effective_value (self : Database) (key : string) :
  (∀ outer t inner e,
      pending_transactions_list self = outer ++ t :: inner →
      untouched inner key →
      t !! key = Some e →
      (get self key).2 = [print_value e])
  ∧ (untouched (pending_transactions_list self) key →
     (get self key).2 = [print_value (database self !! key)])
  ∧ (get self key).1 = self.
Proof.
  split_and!.
  - intros outer t inner e Hl Hin Ht.
    by rewrite get_output, (get_result_hit _ _ _ _ _ _ Hl Hin Ht).
  - intros H. by rewrite get_output, get_result_base.
  - done.
Qed.

Lemma get_effective_value_witness :
  (get nested_store "a").2 = [OutValue "20"]
  ∧ (get nested_store "b").2 = [OutNull]
  ∧ (get nested_store "c").2 = [OutNull].
Proof.
  split_and!.
  - apply (proj1 (get_effective_value nested_store "a")
             [] {["a" := Some "20"]} [{["b" := None]}] (Some "20")).
    + vm_compute. reflexivity.
    + apply (bool_decide_unpack _). vm_compute. exact I.
    + vm_compute. reflexivity.
  - apply (proj1 (get_effective_value nested_store "b")
             [{["a" := Some "20"]}] {["b" := None]} [] None).
    + vm_compute. reflexivity.
    + constructor.
    + vm_compute. reflexivity.
  - apply (proj1 (proj2 (get_effective_value nested_store "c"))).
    apply (bool_decide_unpack _). vm_compute. exact I.
Defined.

(** C10: [numequalto] leaves the committed table, the pending blocks and
    the counter table as they were, so a value without a counter still has
    none afterwards; it prints the counter, or 0 for a value without one. *)
Theorem numequalto_reads_only (self : Database) (value : string) :
  (numequalto self value).1 = self
  ∧ value_count (numequalto self value).1 !! value = value_count self !! value
  ∧ (numequalto self value).2 = [OutCount (default 0 (value_count self !! value))].
Proof.
  split_and!; [done..|].
  unfold numequalto, numequalto_result. simpl. by destruct (_ !! value).
Qed.

(** ** No transaction in progress *)

Lemma rollback_no_transaction self :
  pending_transactions_list self = [] →
  rollback self = (self, [OutNoTransaction]).
Proof. intros H. unfold rollback. by rewrite H. Qed.

Lemma commit_no_transaction self :
  pending_transactions_list self = [] →
  commit self = (self, [OutNoTransaction]).
Proof. intros H. unfold commit. by rewrite H. Qed.

(** C7: with no pending block, [rollback] and [commit] each print
    NO TRANSACTION and return the store unchanged. *)
Theorem no_transaction_unchanged (self : Database) :
  pending_transactions_list self = [] →
  rollback self = (self, [OutNoTransaction])
  ∧ commit self = (self, [OutNoTransaction]).
Proof.
  intros H. split.
  - by apply rollback_no_transaction.
  - by apply commit_no_transaction.
Qed.

Lemma no_transaction_unchanged_witness :
  rollback init = (init, [OutNoTransaction])
  ∧ commit init = (init, [OutNoTransaction]).
Proof. apply (no_transaction_unchanged init). reflexivity. Defined.

(** ** [rollback] *)

Section rollback_loops.
Implicit Types (ktu ks : list string) (rest : list overlay).

Lemma filter_keeps_all (P : string → Prop) `{!∀ k, Decision (P k)} ks :
  (∀ k, k ∈ ks → P k) → filter P ks = ks.
Proof.
  induction ks as [|k ks IH]; intros Hall; [done|].
  rewrite filter_cons_True by (apply Hall; left).
  rewrite IH; [done|]. intros k' Hk'. apply Hall. by right.
Qed.

Lemma list_remove_filter x ktu :
  NoDup ktu → list_remove x ktu = filter (λ k, k ≠ x) ktu.
Proof.
  induction 1 as [|y ktu Hy _ IH]; [done|].
  simpl. rewrite filter_cons. destruct (decide (x = y)) as [->|Hne].
  - rewrite decide_False by naive_solver.
    symmetry. apply filter_keeps_all. by intros k Hk ->.
  - rewrite decide_True by naive_solver. by rewrite IH.
Qed.

(** One round of the pruning loop keeps the keys other than [pk]. *)
Lemma prune_step ktu pk :
  NoDup ktu →
  (if bool_decide (pk ∈ ktu) then list_remove pk ktu else ktu)
  = filter (λ k, k ≠ pk) ktu.
Proof.
  intros Hnd. case_bool_decide as Hin.
  - by apply list_remove_filter.
  - symmetry. apply filter_keeps_all. by intros k Hk ->.
Qed.

Lemma prune_keys ktu ks :
  NoDup ktu →
  foldl (λ ktu pending_key,
           if bool_decide (pending_key ∈ ktu)
           then list_remove pending_key ktu else ktu) ktu ks
  = filter (λ k, k ∉ ks) ktu.
Proof.
  revert ktu. induction ks as [|pk ks IH]; intros ktu Hnd; simpl.
  - symmetry. apply filter_keeps_all. intros k _. set_solver.
  - rewrite prune_step by done. rewrite IH by by apply NoDup_filter.
    rewrite list_filter_filter. apply list_filter_iff.
    intros k. rewrite not_elem_of_cons. tauto.
Qed.

Lemma prune_block_filter ktu (pending : overlay) :
  NoDup ktu →
  prune_block ktu pending = filter (λ k, pending !! k = None) ktu.
Proof.
  intros Hnd. unfold prune_block. rewrite prune_keys by done.
  apply list_filter_iff. intros k.
  rewrite elem_of_keys, <- eq_None_not_Some. done.
Qed.

(** After the pruning loop [keys_to_update] holds the keys that no
    remaining block has. *)
Lemma prune_filter ktu rest :
  NoDup ktu → prune ktu rest = filter (untouched rest) ktu.
Proof.
  unfold prune. revert ktu.
  induction rest as [|pending rest IH]; intros ktu Hnd; simpl.
  - symmetry. apply filter_keeps_all. intros k _. constructor.
  - rewrite prune_block_filter by done. rewrite IH by by apply NoDup_filter.
    rewrite list_filter_filter. apply list_filter_iff.
    intros k. unfold untouched. rewrite Forall_cons. tauto.
Qed.

(** The counter of [u] after the repair loop over [ks]. *)
Lemma repair_fold db (transaction : overlay) vc ks u :
  vc_get (foldl (repair_key db transaction) vc ks) u
  = vc_get vc u
    + foldr (λ k acc,
               (if truthy (db !! k) then indicator (db !! k) u else 0)
               - indicator (mjoin (transaction !! k)) u + acc) 0 ks.
Proof.
  revert vc. induction ks as [|k ks IH]; intros vc; simpl; [lia|].
  rewrite IH. unfold repair_key, indicator.
  assert (∀ vc',
    vc_get (match transaction !! k with
            | Some (Some v) => vc_add vc' v (-1)
            | _ => vc'
            end) u
    = vc_get vc' u
      - (if decide (mjoin (transaction !! k) = Some u) then 1 else 0)) as ->.
  { intros vc'. destruct (transaction !! k) as [[v|]|]; simpl; [|lia..].
    rewrite vc_get_add. repeat case_decide; simplify_eq; lia. }
  destruct (truthy (db !! k)) eqn:Htr.
  - apply truthy_Some in Htr as (v & -> & _). simpl.
    rewrite vc_get_add. repeat case_decide; simplify_eq; lia.
  - lia.
Qed.

Lemma delta_sum_ext ks (f g : string → Z) :
  (∀ k, k ∈ ks → f k = g k) →
  foldr (λ k acc, f k + acc) 0 ks = foldr (λ k acc, g k + acc) 0 ks.
Proof.
  induction ks as [|k ks IH]; intros H; simpl; [done|].
  rewrite H by left. rewrite IH; [done|]. intros k' Hk'. apply H. by right.
Qed.
End rollback_loops.

(** What [rollback] leaves when a block is pending. *)
Lemma rollback_pending self transaction :
last (pending_transactions_list self) = Some transaction →
rollback self
= (mkDatabase (database self)
     (foldl (repair_key (database self) transaction) (value_count self)
        (filter (untouched (removelast (pending_transactions_list self)))
           (keys transaction)))
     (removelast (pending_transactions_list self)), []).
Proof.
intros Hlast. unfold rollback. rewrite Hlast.
by rewrite prune_filter by apply NoDup_keys.
Qed.

(** ** The loops of [commit] *)

Section commit_loops.
Implicit Types (kp ks : list string) (ts : list overlay).

Lemma set_commit self k v :
  set_ self k v true
  = mkDatabase (<[k := v]> (database self)) (value_count self)
      (pending_transactions_list self).
Proof. unfold set_. by rewrite andb_false_r. Qed.

Lemma unset_commit self k :
  unset self k true
  = if truthy (database self !! k)
    then mkDatabase (delete k (database self)) (value_count self)
           (pending_transactions_list self)
    else self.
Proof. unfold unset. by rewrite andb_false_r. Qed.

(** The store after one key of a block has been applied. *)
Lemma commit_entry_spec (transaction : overlay) self key :
  let self' := match transaction !! key with
               | Some None => unset self key true
               | Some (Some v) => set_ self key v true
               | None => self
               end in
  value_count self' = value_count self
  ∧ pending_transactions_list self' = pending_transactions_list self
  ∧ ∀ k, database self' !! k
         = if decide (k = key)
           then apply_entry (transaction !! key) (database self !! key)
           else database self !! k.
Proof.
  destruct (transaction !! key) as [[v|]|]; simpl.
  - rewrite set_commit. simpl. split_and!; [done..|].
    intros k. rewrite lookup_insert.
    repeat case_decide; by simplify_eq.
  - rewrite unset_commit. destruct (truthy (database self !! key)); simpl.
    + split_and!; [done..|]. intros k. rewrite lookup_delete.
      repeat case_decide; by simplify_eq.
    + split_and!; [done..|]. intros k. case_decide; by simplify_eq.
  - split_and!; [done..|]. intros k. case_decide; by simplify_eq.
Qed.

Lemma commit_key_unfold (transaction : overlay) self kp key :
  commit_key transaction (self, kp) key
  = if bool_decide (key ∈ kp) then (self, kp)
    else (match transaction !! key with
          | Some None => unset self key true
          | Some (Some v) => set_ self key v true
          | None => self
          end, kp ++ [key]).
Proof. done. Qed.

(** The inner loop of [commit] over some keys [ks] of a block. *)
Lemma commit_key_fold (transaction : overlay) ks self kp :
  let r := foldl (commit_key transaction) (self, kp) ks in
  value_count r.1 = value_count self
  ∧ pending_transactions_list r.1 = pending_transactions_list self
  ∧ (∀ k, k ∈ r.2 ↔ k ∈ kp ∨ k ∈ ks)
  ∧ ∀ k, database r.1 !! k
         = if decide (k ∈ ks ∧ k ∉ kp)
           then apply_entry (transaction !! k) (database self !! k)
           else database self !! k.
Proof.
  revert self kp.
  induction ks as [|a ks IH]; intros self kp; cbv zeta; cbn [foldl fst snd].
  - split_and!; [done..| |].
    + intros k. rewrite elem_of_nil. tauto.
    + intros k. rewrite decide_False; [done|]. rewrite elem_of_nil. tauto.
  - rewrite commit_key_unfold. case_bool_decide as Ha.
    + destruct (IH self kp) as (Hvc & Hp & Hkp & Hdb).
      split_and!; [done..| |].
      * intros k. rewrite Hkp, elem_of_cons.
        split; [tauto|]. intros [?|[->|?]]; tauto.
      * intros k. rewrite Hdb.
        destruct (decide (k ∈ ks ∧ k ∉ kp)) as [[??]|Hn].
        -- rewrite decide_True; [done|]. rewrite elem_of_cons. tauto.
        -- rewrite decide_False; [done|]. rewrite elem_of_cons.
           intros [[->|?] ?]; tauto.
    + destruct (commit_entry_spec transaction self a) as (Hvc1 & Hp1 & Hdb1).
      set (self' := match transaction !! a with
                    | Some None => unset self a true
                    | Some (Some v) => set_ self a v true
                    | None => self
                    end) in *.
      destruct (IH self' (kp ++ [a])) as (Hvc & Hp & Hkp & Hdb).
      split_and!; [congruence..| |].
      * intros k. rewrite Hkp, elem_of_app, elem_of_cons, elem_of_cons,
          elem_of_nil. tauto.
      * intros k. rewrite Hdb, !Hdb1.
        destruct (decide (k = a)) as [->|Hne].
        -- rewrite decide_False by (rewrite elem_of_app, list_elem_of_singleton; tauto).
           rewrite decide_True; [done|]. rewrite elem_of_cons. tauto.
        -- destruct (decide (k ∈ ks ∧ k ∉ kp)) as [[??]|Hn].
           ++ rewrite decide_True
                by (rewrite elem_of_app, list_elem_of_singleton; tauto).
              rewrite decide_True; [done|]. rewrite elem_of_cons. tauto.
           ++ rewrite decide_False
                by (rewrite elem_of_app, list_elem_of_singleton; tauto).
              rewrite decide_False; [done|]. rewrite elem_of_cons. tauto.
Qed.

(** The outer loop of [commit] over the blocks [ts], innermost first:
    a key not yet processed takes the entry of the first block that has
    one. *)
Lemma commit_block_fold ts self kp :
  let r := foldl commit_block (self, kp) ts in
  value_count r.1 = value_count self
  ∧ pending_transactions_list r.1 = pending_transactions_list self
  ∧ ∀ k, database r.1 !! k
         = if decide (k ∈ kp) then database self !! k
           else apply_entry (get_loop ts k) (database self !! k).
Proof.
  revert self kp.
  induction ts as [|t ts IH]; intros self kp; cbv zeta; cbn [foldl fst snd].
  - split_and!; [done..|]. intros k. by case_decide.
  - change (commit_block (self, kp) t)
      with (foldl (commit_key t) (self, kp) (keys t)).
    destruct (commit_key_fold t (keys t) self kp) as (Hvc1 & Hp1 & Hkp1 & Hdb1).
    destruct (foldl (commit_key t) (self, kp) (keys t)) as [self1 kp1].
    simpl in *.
    destruct (IH self1 kp1) as (Hvc & Hp & Hdb).
    split_and!; [congruence..|].
    intros k. rewrite Hdb, Hdb1.
    destruct (decide (k ∈ kp)) as [Hk|Hk].
    + rewrite decide_True by (apply Hkp1; by left).
      rewrite decide_False; [done|]. tauto.
    + destruct (t !! k) as [e|] eqn:He.
      * assert (k ∈ keys t) by (apply elem_of_keys; eauto).
        rewrite decide_True by (apply Hkp1; by right).
        rewrite decide_True by done. done.
      * assert (k ∉ keys t) by (rewrite elem_of_keys, He; by intros [??]).
        rewrite decide_False by (rewrite Hkp1; tauto).
        rewrite decide_False by tauto. done.
Qed.
End commit_loops.

(** What [commit] leaves when a block is pending: every key of the
  committed table has taken the entry of the innermost block that has
  one. *)
Lemma commit_pending self :
pending_transactions_list self ≠ [] →
(∀ k, database (commit self).1 !! k
      = apply_entry (get_pending (pending_transactions_list self) k)
          (database self !! k))
∧ value_count (commit self).1 = value_count self
∧ pending_transactions_list (commit self).1 = []
∧ (commit self).2 = [].
Proof.
intros Hpending. unfold commit.
destruct (pending_transactions_list self) as [|t0 l0] eqn:Hl; [done|].
simpl nonempty. cbv iota. rewrite <- Hl. clear Hl Hpending t0 l0.
destruct (commit_block_fold (reverse (pending_transactions_list self)) self [])
  as (Hvc & _ & Hdb).
simpl. split_and!; [|done..].
intros k. by rewrite Hdb, decide_False by apply not_elem_of_nil.
Qed.

(** On a committed table without empty values, applying the innermost
  entry gives what [get] prints. *)
Lemma apply_entry_get_result self k :
base_values_nonempty self →
apply_entry (get_pending (pending_transactions_list self) k)
  (database self !! k)
= get_result self k.
Proof.
intros Hne. unfold get_result.
destruct (get_pending _ k) as [[v|]|]; simpl; [done| |done].
destruct (database self !! k) as [w|] eqn:Hw; simpl; [|done].
by rewrite bool_decide_eq_true_2 by by eapply Hne.
Qed.

(** ** What [set] and [unset] do to the store *)

Lemma set_no_transaction self key value :
  pending_transactions_list self = [] →
  database (set_ self key value false) = <[key := value]> (database self)
  ∧ pending_transactions_list (set_ self key value false) = [].
Proof. intros H. unfold set_. by rewrite H. Qed.

Lemma set_in_transaction self l t key value :
  pending_transactions_list self = l ++ [t] →
  database (set_ self key value false) = database self
  ∧ pending_transactions_list (set_ self key value false)
    = l ++ [<[key := Some value]> t].
Proof.
  intros H. unfold set_. rewrite H, nonempty_snoc. simpl.
  by rewrite set_last_snoc.
Qed.

(** The counters after [set]: the new value gains one, and the value the
    committed table held for the key, when it is another non-empty one,
    loses one, whatever the pending blocks hold for the key. *)
Lemma set_index self key value u :
  numequalto_result (set_ self key value false) u
  = numequalto_result self u
    + (if decide (value = u) then 1 else 0)
    - (if truthy (database self !! key)
          && bool_decide (database self !! key ≠ Some value)
       then indicator (database self !! key) u else 0).
Proof.
  rewrite !numequalto_result_vc_get. unfold set_. simpl.
  destruct (nonempty _); simpl;
    (destruct (truthy (database self !! key)) eqn:Htr; simpl;
     [apply truthy_Some in Htr as (w & -> & _); simpl;
      case_bool_decide; unfold indicator; rewrite !vc_get_add;
      repeat case_decide; simplify_eq; lia
     |rewrite vc_get_add; lia]).
Qed.

Lemma unset_no_transaction self key :
  pending_transactions_list self = [] →
  database (unset self key false)
  = (if truthy (database self !! key) then delete key (database self)
     else database self)
  ∧ pending_transactions_list (unset self key false) = [].
Proof.
  intros H. unfold unset. rewrite H. simpl.
  destruct (truthy _); simpl; [|by rewrite H].
  by case_bool_decide.
Qed.

Lemma unset_in_transaction self l t key :
  pending_transactions_list self = l ++ [t] →
  database (unset self key false) = database self
  ∧ pending_transactions_list (unset self key false) = l ++ [<[key := None]> t].
Proof.
  intros H. unfold unset. rewrite H, nonempty_snoc. simpl.
  rewrite set_last_snoc.
  destruct (truthy _); simpl; [|done]. by case_bool_decide.
Qed.

(** The counters after [unset]: the value the committed table holds for
    the key loses one when it is non-empty and its counter is positive. *)
Lemma unset_index self key u :
  numequalto_result (unset self key false) u
  = numequalto_result self u
    - (if truthy (database self !! key)
          && bool_decide (0 < vc_get (value_count self)
                                (default "" (database self !! key)))
       then indicator (database self !! key) u else 0).
Proof.
  rewrite !numequalto_result_vc_get. unfold unset.
  set (self1 := if nonempty _ && negb false then _ else _).
  assert (value_count self1 = value_count self) as Hvc.
  { subst self1. destruct (nonempty _); simpl; [done|]. by destruct (truthy _). }
  clearbody self1.
  destruct (truthy (database self !! key)) eqn:Htr; simpl; [|by rewrite Hvc, Z.sub_0_r].
  apply truthy_Some in Htr as (w & -> & _). simpl.
  rewrite Hvc, vc_get_touch. case_bool_decide; simpl.
  - rewrite vc_get_add, vc_get_touch. unfold indicator.
    repeat case_decide; simplify_eq; lia.
  - rewrite vc_get_touch. lia.
Qed.

(** [unset] never takes a counter below zero. *)
Lemma unset_not_below_zero self key u :
  0 ≤ numequalto_result self u →
  0 ≤ numequalto_result (unset self key false) u.
Proof.
  intros H. rewrite unset_index.
  destruct (truthy (database self !! key)) eqn:Htr; simpl; [|lia].
  apply truthy_Some in Htr as (w & Hw & _). rewrite Hw in *. simpl.
  case_bool_decide; [|lia]. unfold indicator. case_decide; simplify_eq; [|lia].
  rewrite numequalto_result_vc_get in *. lia.
Qed.

(** With no transaction in progress, [unset] of a key the store does not
    have changes nothing at all. *)
Lemma unset_absent_no_transaction self key :
  pending_transactions_list self = [] →
  get_result self key = None →
  unset self key false = self.
Proof.
  intros Hp. unfold get_result, get_pending, unset. rewrite Hp. simpl.
  intros ->. simpl. by destruct self; simplify_eq/=.
Qed.

(** ** Non-empty values are kept *)

Section reachable.
Implicit Types (l : list overlay) (t : overlay).

Lemma snoc_or_nil l : l = [] ∨ ∃ l' t, l = l' ++ [t].
Proof. destruct l as [|t l _] using rev_ind; eauto. Qed.

Lemma block_values_nonempty_insert t key e :
  block_values_nonempty t →
  (∀ v, e = Some v → v ≠ "") →
  block_values_nonempty (<[key := e]> t).
Proof.
  intros Ht He k v. rewrite lookup_insert. case_decide.
  - intros [= ->]. by apply He.
  - apply Ht.
Qed.

Lemma get_loop_elem l key e :
  get_loop l key = Some e → ∃ t, t ∈ l ∧ t !! key = Some e.
Proof.
  induction l as [|t l IH]; simpl; [done|].
  destruct (t !! key) as [e'|] eqn:Ht.
  - intros [= ->]. exists t. split; [by left|done].
  - intros (t' & ? & ?)%IH. exists t'. split; [by right|done].
Qed.

Lemma get_result_nonempty self key v :
  values_nonempty self → get_result self key = Some v → v ≠ "".
Proof.
  intros [Hbase Hblocks]. unfold get_result, get_pending.
  destruct (get_loop _ key) as [e|] eqn:Hloop.
  - apply get_loop_elem in Hloop as (t & Ht & Hk).
    rewrite elem_of_reverse in Ht.
    intros ->. rewrite Forall_forall in Hblocks.
    exact (Hblocks t Ht key v Hk).
  - apply Hbase.
Qed.

Lemma set_values_nonempty self key value :
  value ≠ "" → values_nonempty self →
  values_nonempty (set_ self key value false).
Proof.
  intros Hv [Hbase Hblocks]. unfold values_nonempty, base_values_nonempty.
  destruct (snoc_or_nil (pending_transactions_list self)) as [Hp|(l & t & Hp)].
  - destruct (set_no_transaction self key value Hp) as [-> ->].
    split; [|constructor]. intros k v. rewrite lookup_insert.
    case_decide; [by intros [= <-]|apply Hbase].
  - destruct (set_in_transaction self l t key value Hp) as [-> ->].
    split; [done|]. rewrite Hp in Hblocks.
    apply Forall_app in Hblocks as [Hl [Ht _]%Forall_cons].
    apply Forall_app. split; [done|]. constructor; [|constructor].
    apply block_values_nonempty_insert; [done|]. by intros v [= <-].
Qed.

Lemma unset_values_nonempty self key :
  values_nonempty self → values_nonempty (unset self key false).
Proof.
  intros [Hbase Hblocks]. unfold values_nonempty, base_values_nonempty.
  destruct (snoc_or_nil (pending_transactions_list self)) as [Hp|(l & t & Hp)].
  - destruct (unset_no_transaction self key Hp) as [-> ->].
    split; [|constructor]. intros k v. destruct (truthy _); [|apply Hbase].
    rewrite lookup_delete. case_decide; [done|apply Hbase].
  - destruct (unset_in_transaction self l t key Hp) as [-> ->].
    split; [done|]. rewrite Hp in Hblocks.
    apply Forall_app in Hblocks as [Hl [Ht _]%Forall_cons].
    apply Forall_app. split; [done|]. constructor; [|constructor].
    by apply block_values_nonempty_insert.
Qed.

Lemma rollback_values_nonempty self :
  values_nonempty self → values_nonempty (rollback self).1.
Proof.
  intros [Hbase Hblocks].
  destruct (last (pending_transactions_list self)) as [t|] eqn:Hlast.
  - rewrite (rollback_pending _ _ Hlast). split; [done|]. simpl.
    rewrite (last_removelast _ _ Hlast) in Hblocks.
    by apply Forall_app in Hblocks as [? _].
  - unfold rollback. by rewrite Hlast.
Qed.

Lemma commit_values_nonempty self :
  values_nonempty self → values_nonempty (commit self).1.
Proof.
  intros Hself.
  destruct (snoc_or_nil (pending_transactions_list self)) as [Hp|(l & t & Hp)].
  - by rewrite (commit_no_transaction self Hp).
  - assert (pending_transactions_list self ≠ []) as Hne
      by (rewrite Hp; by destruct l).
    destruct (commit_pending self Hne) as (Hdb & _ & Hnil & _).
    split; [|rewrite Hnil; constructor].
    intros k v. rewrite Hdb, apply_entry_get_result by apply Hself.
    by apply get_result_nonempty.
Qed.

Lemma exec_values_nonempty self c :
  command_ok c → values_nonempty self → values_nonempty (exec self c).1.
Proof.
  destruct c; simpl; intros Hc Hself; try done.
  - by apply set_values_nonempty.
  - by apply unset_values_nonempty.
  - destruct Hself as [Hbase Hblocks]. split; [done|]. simpl.
    apply Forall_app. split; [done|]. constructor; [|constructor].
    intros k v. by rewrite lookup_empty.
  - by apply rollback_values_nonempty.
  - by apply commit_values_nonempty.
Qed.

Lemma run_values_nonempty_from self cs :
  Forall command_ok cs → values_nonempty self → values_nonempty (run self cs).
Proof.
  intros Hcs. revert self.
  induction Hcs as [|c cs Hc _ IH]; intros self Hself; [done|].
  apply IH. by apply exec_values_nonempty.
Qed.

(** Every store built from the fresh one by unflagged calls holds non-empty
    values only. *)
Lemma run_values_nonempty cs :
  Forall command_ok cs → values_nonempty (run init cs).
Proof.
  intros Hcs. apply run_values_nonempty_from; [done|].
  split; [|constructor]. intros k v. unfold init. simpl.
  by rewrite lookup_empty.
Qed.
End reachable.

(** ** [rollback] and the index *)

(** X18: on a store whose committed values are non-empty, [rollback]
    with a block pending drops the innermost block, leaves the committed
    table alone and prints nothing; it changes the counters for the keys
    of the dropped block that no remaining block has, each by the delta
    between the effective value with the dropped entry and the effective
    value without it, and for no other key. *)
Theorem rollback_repairs_untouched (self : Database) (transaction : overlay) :
  base_values_nonempty self →
  last (pending_transactions_list self) = Some transaction →
  pending_transactions_list (rollback self).1
    = removelast (pending_transactions_list self)
  ∧ database (rollback self).1 = database self
  ∧ (rollback self).2 = []
  ∧ rollback_repairs_keys
      (filter (untouched (removelast (pending_transactions_list self)))
         (keys transaction))
      self.
Proof.
  intros Hne Hlast. rewrite (rollback_pending _ _ Hlast). simpl.
  split_and!; [done..|].
  intros u. rewrite (rollback_pending _ _ Hlast). simpl.
  rewrite !numequalto_result_vc_get. simpl. rewrite repair_fold.
  f_equal. unfold delta_sum.
  apply (delta_sum_ext _
    (λ k, (if truthy (database self !! k)
           then indicator (database self !! k) u else 0)
          - indicator (mjoin (transaction !! k)) u)
    (λ k, indicator (get_result (popped self) k) u
          - indicator (get_result self k) u)).
  intros k [Hun Hk]%list_elem_of_filter.
  apply elem_of_keys in Hk as [e He].
  rewrite (get_result_hit self (removelast (pending_transactions_list self))
             transaction [] k e); [|by apply last_removelast|constructor|done].
  rewrite (get_result_base (popped self)) by done.
  rewrite He. simpl. f_equal.
  destruct (database self !! k) as [w|] eqn:Hw; simpl; [|done].
  by rewrite bool_decide_eq_true_2 by by eapply Hne.
Qed.

Lemma rollback_repairs_untouched_witness :
  base_values_nonempty nested_store
  ∧ last (pending_transactions_list nested_store) = Some {["b" := None]}
  ∧ pending_transactions_list (rollback nested_store).1
    = removelast (pending_transactions_list nested_store)
  ∧ database (rollback nested_store).1 = database nested_store
  ∧ (rollback nested_store).2 = []
  ∧ rollback_repairs_keys
      (filter (untouched (removelast (pending_transactions_list nested_store)))
         (keys ({["b" := None]} : overlay)))
      nested_store.
Proof.
  assert (base_values_nonempty nested_store) as Hne.
  { apply run_values_nonempty. repeat constructor; done. }
  assert (last (pending_transactions_list nested_store) = Some {["b" := None]})
    as Hlast by (vm_compute; reflexivity).
  split; [exact Hne|]. split; [exact Hlast|].
  exact (rollback_repairs_untouched nested_store {["b" := None]} Hne Hlast).
Defined.

(** At [BEGIN; SET a 10; BEGIN; SET a 20] the dropped block's key is also
    in the remaining block, and [rollback] does not repair its counters. *)
Lemma rollback_skips_shadowed_key : ¬ rollback_repairs_all_keys shadowed_store.
Proof.
  intros H. specialize (H {["a" := Some "20"]} eq_refl "20").
  vm_compute in H. discriminate.
Qed.

(** C3 at [BEGIN; SET a 10; BEGIN; SET a 20] followed by [ROLLBACK]: before
    the rollback one key holds "20" and the counter of "20" is 1; the
    rollback drops the block that set it, [get a] prints "10" again and no
    key holds "20", and the counter of "20" is still 1. *)
Theorem rollback_leaves_shadowed_counter :
  get_result shadowed_store "a" = Some "20"
  ∧ keys_equal_to shadowed_store "20" = 1
  ∧ numequalto_result shadowed_store "20" = 1
  ∧ get_result (rollback shadowed_store).1 "a" = Some "10"
  ∧ keys_equal_to (rollback shadowed_store).1 "20" = 0
  ∧ numequalto_result (rollback shadowed_store).1 "20" = 1
  ∧ run_output init
      [BEGIN; SET "a" "10"; BEGIN; SET "a" "20"; ROLLBACK; GET "a";
       NUMEQUALTO "20"]
    = [OutValue "10"; OutCount 1].
Proof. vm_compute. done. Qed.

(** ** [begin(); set(k, v); rollback()] *)

Lemma set_begin self k v :
  set_ (begin self) k v false
  = mkDatabase (database self)
      (let vc1 := vc_add (value_count self) v 1 in
       if truthy (database self !! k)
          && bool_decide (database self !! k ≠ Some v)
       then vc_add vc1 (default "" (database self !! k)) (-1)
       else vc1)
      (pending_transactions_list self ++ [{[k := Some v]}]).
Proof.
  unfold set_, begin. simpl. rewrite nonempty_snoc. simpl.
  by rewrite set_last_snoc, insert_empty.
Qed.
(** X20: [begin(); set(k, v); rollback()] gives back the committed table
    and the pending blocks, hence what [get] prints for every key; it gives
    back what [numequalto] prints for every value when no pending block of
    the prior store has an entry for [k] and the committed table does not
    already hold [v] for [k]. *)
Theorem begin_set_rollback_restores (self : Database) (k v : string) :
  database (begin_set_rollback self k v) = database self
  ∧ pending_transactions_list (begin_set_rollback self k v)
    = pending_transactions_list self
  ∧ (∀ k', get_result (begin_set_rollback self k v) k' = get_result self k')
  ∧ (untouched (pending_transactions_list self) k →
     database self !! k ≠ Some v →
     ∀ u, numequalto_result (begin_set_rollback self k v) u
          = numequalto_result self u).
Proof.
  unfold begin_set_rollback. rewrite set_begin.
  erewrite rollback_pending by (simpl; apply last_snoc).
  simpl. rewrite removelast_last.
  split_and!; [done..|].
  intros Hun Hdb u. rewrite !numequalto_result_vc_get. simpl.
  unfold keys. rewrite map_to_list_singleton. simpl.
  rewrite filter_cons_True by done. simpl.
  unfold repair_key. rewrite lookup_singleton_eq.
  destruct (database self !! k) as [w|] eqn:Hw; simpl.
  - rewrite (bool_decide_eq_true_2 (Some w ≠ Some v)) by done.
    case_bool_decide as Hnonempty; simpl;
      rewrite !vc_get_add; repeat case_decide; simplify_eq; lia.
  - rewrite !vc_get_add. repeat case_decide; simplify_eq; lia.
Qed.

Lemma begin_set_rollback_restores_witness :
  untouched (pending_transactions_list nested_store) "c"
  ∧ database nested_store !! "c" ≠ Some "5"
  ∧ numequalto_result (begin_set_rollback nested_store "c" "5") "5"
    = numequalto_result nested_store "5".
Proof.
  assert (untouched (pending_transactions_list nested_store) "c") as Hun
    by (apply (bool_decide_unpack _); vm_compute; exact I).
  assert (database nested_store !! "c" ≠ Some "5") as Hdb
    by (vm_compute; discriminate).
  split; [exact Hun|]. split; [exact Hdb|].
  exact (proj2 (proj2 (proj2
           (begin_set_rollback_restores nested_store "c" "5"))) Hun Hdb "5").
Defined.

(** At [BEGIN; SET a 10] with [k = a], [v = 20] the round trip does not
    restore the counters. *)
Lemma begin_set_rollback_open_block : ¬ restores_reads open_block_store "a" "20".
Proof.
  intros [_ H]. specialize (H "20"). vm_compute in H. discriminate.
Qed.

(** Where the committed table already holds [v] for [k], the counter of
    [v] is one higher afterwards: [set] adds one without taking one away,
    and [rollback] adds one and takes one away. *)
Example begin_set_same_value_rollback :
  numequalto_result committed_store "10" = 1
  ∧ numequalto_result (begin_set_rollback committed_store "a" "10") "10" = 2.
Proof. vm_compute. done. Qed.

(** C5 at [BEGIN; SET a 10] followed by [begin(); set(a, 20);
    rollback()]: [get a] prints "10" before and after and no key holds
    "20", yet the counter of "20" is 0 before and 1 after.  At [SET a 10]
    followed by [begin(); set(a, 10); rollback()] the counter of "10" is 1
    before and 2 after, with one key holding "10". *)
Theorem begin_set_rollback_leaves_counter :
  get_result open_block_store "a" = Some "10"
  ∧ get_result (begin_set_rollback open_block_store "a" "20") "a" = Some "10"
  ∧ numequalto_result open_block_store "20" = 0
  ∧ numequalto_result (begin_set_rollback open_block_store "a" "20") "20" = 1
  ∧ keys_equal_to (begin_set_rollback open_block_store "a" "20") "20" = 0
  ∧ numequalto_result committed_store "10" = 1
  ∧ numequalto_result (begin_set_rollback committed_store "a" "10") "10" = 2
  ∧ keys_equal_to (begin_set_rollback committed_store "a" "10") "10" = 1.
Proof. vm_compute. done. Qed.

(** ** [commit] flattens the pending blocks *)

(** X19: on a store whose committed values are non-empty, [commit] with
    a block pending makes the committed table the effective state it was
    called in (for every key, what [get] found just before), leaves the
    counter table as it was, empties the list of pending blocks and prints
    nothing. *)
Theorem commit_flattens (self : Database) :
  base_values_nonempty self →
  pending_transactions_list self ≠ [] →
  (∀ k, database (commit self).1 !! k = get_result self k)
  ∧ value_count (commit self).1 = value_count self
  ∧ pending_transactions_list (commit self).1 = []
  ∧ (commit self).2 = [].
Proof.
  intros Hne Hpending.
  destruct (commit_pending self Hpending) as (Hdb & Hvc & Hnil & Hout).
  split_and!; [|done..].
  intros k. by rewrite Hdb, apply_entry_get_result.
Qed.

Lemma commit_flattens_witness :
  base_values_nonempty nested_store
  ∧ pending_transactions_list nested_store ≠ []
  ∧ (∀ k, database (commit nested_store).1 !! k = get_result nested_store k)
  ∧ value_count (commit nested_store).1 = value_count nested_store
  ∧ pending_transactions_list (commit nested_store).1 = []
  ∧ (commit nested_store).2 = [].
Proof.
  assert (base_values_nonempty nested_store) as Hne.
  { apply run_values_nonempty. repeat constructor; done. }
  assert (pending_transactions_list nested_store ≠ []) as Hp
    by (vm_compute; discriminate).
  split; [exact Hne|]. split; [exact Hp|].
  exact (commit_flattens nested_store Hne Hp).
Defined.

(** The condition on the committed table cannot be dropped: [unset] tests
    the truth value of the committed value, so a tombstone over an empty
    string leaves the key where it is. *)
Remark commit_keeps_empty_value :
  get_result (mkDatabase {["a" := ""]} ∅ [{["a" := None]}]) "a" = None
  ∧ database (commit (mkDatabase {["a" := ""]} ∅ [{["a" := None]}])).1 !! "a"
    = Some "".
Proof. vm_compute. done. Qed.

(** C4 at the lines [SET a  x], [BEGIN], [UNSET a] followed by [COMMIT]:
    the first line stores the empty string for [a]; in the block [get a]
    finds nothing and prints NULL; [commit] calls [unset(a, True)], which
    takes the empty committed value for false and deletes nothing, so the
    committed table still holds [a] and [get a] prints the empty string. *)
Theorem commit_keeps_unset_key :
  pending_transactions_list empty_value_store ≠ []
  ∧ get_result empty_value_store "a" = None
  ∧ database (commit empty_value_store).1 !! "a" = Some ""
  ∧ get_result (commit empty_value_store).1 "a" = Some ""
  ∧ (main_loop init
       ["SET a  x"; "BEGIN"; "UNSET a"; "GET a"; "COMMIT"; "GET a"; "END"]).1.2
    = [Printed OutNull; Printed (OutValue "")].
Proof. vm_compute. split; [discriminate|done]. Qed.

(** ** The index on concrete command sequences *)

(** C1 at [SET a 10; SET a 10]: one key holds "10", and [numequalto]
    prints 2 for it. *)
Theorem set_same_value_counts_twice :
  keys_equal_to (run init [SET "a" "10"; SET "a" "10"]) "10" = 1
  ∧ numequalto_result (run init [SET "a" "10"; SET "a" "10"]) "10" = 2
  ∧ run_output init [SET "a" "10"; SET "a" "10"; NUMEQUALTO "10"; GET "a"]
    = [OutCount 2; OutValue "10"].
Proof. vm_compute. done. Qed.

(** C2 at [SET a 10; BEGIN; SET a 20] followed by [SET a 30]: the key's
    effective value before the write is "20", and the write lowers the
    counter of "10", the committed value, leaving the counter of "20". *)
Theorem set_decrements_committed_value :
  get_result overwritten_store "a" = Some "20"
  ∧ numequalto_result overwritten_store "20" = 1
  ∧ numequalto_result overwritten_store "10" = 0
  ∧ numequalto_result (set_ overwritten_store "a" "30" false) "20" = 1
  ∧ numequalto_result (set_ overwritten_store "a" "30" false) "10" = -1
  ∧ numequalto_result (set_ overwritten_store "a" "30" false) "30" = 1.
Proof. vm_compute. done. Qed.

(** C8 at [SET a 10; BEGIN; SET a 20; SET a 30]: the counter of "10" is
    -1, and [numequalto] prints it. *)
Theorem set_in_block_counter_negative :
  value_count (run init [SET "a" "10"; BEGIN; SET "a" "20"; SET "a" "30"])
    !! "10" = Some (-1)
  ∧ run_output init
      [SET "a" "10"; BEGIN; SET "a" "20"; SET "a" "30"; NUMEQUALTO "10"]
    = [OutCount (-1)].
Proof. vm_compute. done. Qed.

(** C9 at [SET a 10; SET b 10; BEGIN; UNSET a] followed by a second
    [UNSET a]: the key is already absent, and the second [unset] lowers
    the counter of "10" from 1 to 0 while the other key still holds "10". *)
Theorem second_unset_decrements_again :
  get_result unset_once_store "a" = None
  ∧ numequalto_result unset_once_store "10" = 1
  ∧ numequalto_result (unset unset_once_store "a" false) "10" = 0
  ∧ get_result (unset unset_once_store "a" false) "b" = Some "10".
Proof. vm_compute. done. Qed.

(** * Further properties of the methods *)

Example main_loop_scenario :
  main_loop init
    ["SET a 10"; "  set b 10 "; "NUMEQUALTO 10"; "Get a"; "get"; "fetch a";
     "BEGIN"; "unset a"; "GET a"; "ROLLBACK"; "GET a"; "End"; "END"; "GET a"]
  = (run init [SET "a" "10"; SET "b" "10"],
     [Printed (OutCount 2); Printed (OutValue "10"); InvalidArguments;
      InvalidVerb; Printed OutNull; Printed (OutValue "10"); InvalidVerb],
     Ended).
Proof. vm_compute. reflexivity. Qed.

(** ** Writes seen by [get] *)

Lemma get_result_ext s1 s2 k :
  database s1 = database s2 →
  pending_transactions_list s1 = pending_transactions_list s2 →
  get_result s1 k = get_result s2 k.
Proof. intros Hdb Hp. unfold get_result. by rewrite Hdb, Hp. Qed.

Lemma get_result_no_transaction self k :
  pending_transactions_list self = [] →
  get_result self k = database self !! k.
Proof. intros Hp. apply get_result_base. rewrite Hp. constructor. Qed.

Lemma get_result_snoc self l t k :
  pending_transactions_list self = l ++ [t] →
  get_result self k
  = match t !! k with
    | Some e => e
    | None => match get_pending l k with
              | Some e => e
              | None => database self !! k
              end
    end.
Proof.
  intros Hp. unfold get_result. rewrite Hp, get_pending_snoc.
  by destruct (t !! k).
Qed.

Lemma get_result_after_set self key value :
  get_result (set_ self key value false) key = Some value
  ∧ ∀ k, k ≠ key →
      get_result (set_ self key value false) k = get_result self k.
Proof.
  destruct (snoc_or_nil (pending_transactions_list self)) as [Hp|(l & t & Hp)].
  - destruct (set_no_transaction self key value Hp) as [Hdb Hp'].
    rewrite !get_result_no_transaction, Hdb by done. split.
    + by rewrite lookup_insert_eq.
    + intros k Hk. rewrite !get_result_no_transaction by done.
      by rewrite Hdb, lookup_insert_ne.
  - destruct (set_in_transaction self l t key value Hp) as [Hdb Hp'].
    split.
    + by rewrite (get_result_snoc _ _ _ _ Hp'), lookup_insert_eq.
    + intros k Hk.
      rewrite (get_result_snoc _ _ _ _ Hp'), (get_result_snoc _ _ _ _ Hp).
      by rewrite lookup_insert_ne, Hdb.
Qed.

(** X1: after [set(key, value)], with or without a transaction in
    progress, [get(key)] prints [value], and [get] of every other key
    prints what it printed before. *)
Theorem get_after_set (self : Database) (key value : string) :
  get_result (set_ self key value false) key = Some value
  ∧ ∀ k, k ≠ key →
      get_result (set_ self key value false) k = get_result self k.
Proof. apply get_result_after_set. Qed.

(** X2: after [unset(key)], [get] of every other key prints what it
    printed before, and [get(key)] prints NULL, provided a transaction is
    in progress or the committed value of the key is not the empty
    string. *)
Theorem get_after_unset (self : Database) (key : string) :
  (pending_transactions_list self ≠ [] ∨ database self !! key ≠ Some "" →
   get_result (unset self key false) key = None)
  ∧ ∀ k, k ≠ key → get_result (unset self key false) k = get_result self k.
Proof.
  destruct (snoc_or_nil (pending_transactions_list self)) as [Hp|(l & t & Hp)].
  - destruct (unset_no_transaction self key Hp) as [Hdb Hp'].
    split.
    + intros [?|Hne]; [done|].
      rewrite get_result_no_transaction, Hdb by done.
      destruct (database self !! key) as [w|] eqn:Hw; simpl.
      * case_bool_decide as Hw'; [by rewrite lookup_delete_eq|].
        destruct Hne. f_equal. by destruct (decide (w = "")).
      * done.
    + intros k Hk. rewrite !get_result_no_transaction, Hdb by done.
      destruct (truthy _); [by rewrite lookup_delete_ne|done].
  - destruct (unset_in_transaction self l t key Hp) as [Hdb Hp'].
    split.
    + intros _. by rewrite (get_result_snoc _ _ _ _ Hp'), lookup_insert_eq.
    + intros k Hk.
      rewrite (get_result_snoc _ _ _ _ Hp'), (get_result_snoc _ _ _ _ Hp).
      by rewrite lookup_insert_ne, Hdb.
Qed.

Lemma get_after_unset_witness :
  get_result (unset nested_store "a" false) "a" = None.
Proof.
  apply (proj1 (get_after_unset nested_store "a")).
  left. vm_compute. discriminate.
Defined.

(** ** [begin] and [commit] around the reads *)

(** X3: [begin] opens one more block and changes no answer: [get] of
    every key and [numequalto] of every value print what they printed
    before, and the committed table is the same. *)
Theorem begin_keeps_reads (self : Database) :
  (∀ k, get_result (begin self) k = get_result self k)
  ∧ (∀ v, numequalto_result (begin self) v = numequalto_result self v)
  ∧ database (begin self) = database self
  ∧ length (pending_transactions_list (begin self))
    = S (length (pending_transactions_list self)).
Proof.
  split_and!; [|done..|].
  - intros k. unfold get_result, begin. simpl.
    by rewrite get_pending_snoc, lookup_empty.
  - unfold begin. simpl. rewrite length_app. simpl. lia.
Qed.

(** X4: with no transaction in progress, [begin(); set(key, value);
    commit()] leaves exactly the store that [set(key, value)] alone
    leaves, and prints nothing. *)
Theorem begin_set_commit_is_set (self : Database) (key value : string) :
  pending_transactions_list self = [] →
  commit (set_ (begin self) key value false)
  = (set_ self key value false, []).
Proof.
  intros Hp. rewrite set_begin. unfold commit, set_. rewrite Hp. simpl.
  unfold commit_block, keys. rewrite map_to_list_singleton. simpl.
  rewrite lookup_singleton_eq, set_commit. simpl. done.
Qed.

Lemma begin_set_commit_is_set_witness :
  commit (set_ (begin committed_store) "a" "20" false)
  = (set_ committed_store "a" "20" false, []).
Proof. apply (begin_set_commit_is_set committed_store "a" "20"). reflexivity. Defined.

(** X5: on a store whose committed values are non-empty, [commit]
    changes no answer, whether or not a transaction is in progress: [get]
    of every key and [numequalto] of every value print what they printed
    before. *)
Theorem commit_keeps_reads (self : Database) :
  base_values_nonempty self →
  (∀ k, get_result (commit self).1 k = get_result self k)
  ∧ ∀ v, numequalto_result (commit self).1 v = numequalto_result self v.
Proof.
  intros Hne.
  destruct (snoc_or_nil (pending_transactions_list self)) as [Hp|(l & t & Hp)].
  - by rewrite (commit_no_transaction self Hp).
  - assert (pending_transactions_list self ≠ []) as Hpending
      by (rewrite Hp; by destruct l).
    destruct (commit_pending self Hpending) as (Hdb & Hvc & Hnil & _).
    split.
    + intros k. rewrite get_result_no_transaction by done.
      by rewrite Hdb, apply_entry_get_result.
    + intros v. by rewrite !numequalto_result_vc_get, Hvc.
Qed.

Lemma commit_keeps_reads_witness :
  get_result (commit nested_store).1 "b" = get_result nested_store "b".
Proof.
  assert (base_values_nonempty nested_store) as Hne.
  { apply run_values_nonempty. repeat constructor; done. }
  exact (proj1 (commit_keeps_reads nested_store Hne) "b").
Defined.

(** ** [rollback] undoes the writes of one block *)

Lemma block_command_keeps self l t c :
  pending_transactions_list self = l ++ [t] →
  block_command c →
  database (exec self c).1 = database self
  ∧ ∃ t', pending_transactions_list (exec self c).1 = l ++ [t'].
Proof.
  intros Hp Hc. destruct c; simpl in *; try done; eauto.
  - destruct (set_in_transaction self l t key value Hp) as [? ?]. eauto.
  - destruct (unset_in_transaction self l t key Hp) as [? ?]. eauto.
Qed.

Lemma block_commands_keep cs self l t :
  pending_transactions_list self = l ++ [t] →
  Forall block_command cs →
  database (run self cs) = database self
  ∧ ∃ t', pending_transactions_list (run self cs) = l ++ [t'].
Proof.
  intros Hp Hcs. revert self t Hp.
  induction Hcs as [|c cs Hc _ IH]; intros self t Hp; [eauto|].
  destruct (block_command_keeps self l t c Hp Hc) as (Hdb & t1 & Hp1).
  destruct (IH _ _ Hp1) as (Hdb' & t' & Hp'). simpl.
  split; [congruence|eauto].
Qed.

(** X6: [begin()], then any number of calls [set(key, value)],
    [unset(key)], [get(key)] and [numequalto(value)], the parameter
    [commit] left at its default, then [rollback()] gives back the
    committed table and the pending blocks of before, so [get] of every
    key prints what it printed before the [begin()]. *)
Theorem rollback_undoes_block (self : Database) (cs : list command) :
  Forall block_command cs →
  database (rollback (run (begin self) cs)).1 = database self
  ∧ pending_transactions_list (rollback (run (begin self) cs)).1
    = pending_transactions_list self
  ∧ (rollback (run (begin self) cs)).2 = []
  ∧ ∀ k, get_result (rollback (run (begin self) cs)).1 k = get_result self k.
Proof.
  intros Hcs.
  destruct (block_commands_keep cs (begin self)
              (pending_transactions_list self) ∅ eq_refl Hcs)
    as (Hdb & t' & Hp).
  assert (last (pending_transactions_list (run (begin self) cs)) = Some t')
    as Hlast by (rewrite Hp; apply last_snoc).
  rewrite (rollback_pending _ _ Hlast).
  cbn [fst snd database pending_transactions_list].
  rewrite Hp, removelast_last.
  split_and!; [done..|].
  intros k. by apply get_result_ext.
Qed.

Lemma rollback_undoes_block_witness :
  get_result
    (rollback (run (begin committed_store) [SET "a" "20"; UNSET "a"; SET "b" "1"])).1
    "a"
  = get_result committed_store "a".
Proof.
  apply (rollback_undoes_block committed_store
           [SET "a" "20"; UNSET "a"; SET "b" "1"]).
  repeat constructor.
Defined.

(** ** The index outside transactions *)

Section counting.
Context (P Q : string → Prop) `{!∀ k, Decision (P k), !∀ k, Decision (Q k)}.

Lemma filter_agree (l : list string) :
  (∀ k, k ∈ l → (P k ↔ Q k)) → filter P l = filter Q l.
Proof.
  induction l as [|k l IH]; intros Hl; [done|].
  rewrite !filter_cons.
  rewrite IH by (intros k' Hk'; apply Hl; by right).
  destruct (decide (P k)) as [Hk|Hk], (decide (Q k)) as [Hk'|Hk']; try done.
  - destruct Hk'. apply Hl; [by left|done].
  - destruct Hk. apply Hl; [by left|done].
Qed.

Lemma count_keys_ext (X : gset string) :
  (∀ k, k ∈ X → (P k ↔ Q k)) → count_keys P X = count_keys Q X.
Proof.
  intros HX. unfold count_keys. rewrite filter_agree; [done|].
  intros k Hk. apply HX. by apply elem_of_elements.
Qed.

Lemma count_keys_add (X : gset string) k :
  k ∉ X →
  count_keys P ({[k]} ∪ X) = count_keys P X + (if decide (P k) then 1 else 0).
Proof.
  intros Hk. unfold count_keys.
  rewrite elements_union_singleton by done. rewrite filter_cons.
  destruct (decide (P k)); simpl; lia.
Qed.

Lemma count_keys_split (X : gset string) k :
  count_keys P X
  = count_keys P (X ∖ {[k]}) + (if decide (k ∈ X ∧ P k) then 1 else 0).
Proof.
  destruct (decide (k ∈ X)) as [Hk|Hk].
  - rewrite (union_difference_singleton_L k X Hk) at 1.
    rewrite count_keys_add
      by (rewrite elem_of_difference, elem_of_singleton; tauto).
    destruct (decide (P k)).
    + by rewrite decide_True.
    + rewrite decide_False; [done|tauto].
  - rewrite difference_disjoint_L by by apply disjoint_singleton_r.
    rewrite decide_False; [lia|tauto].
Qed.
End counting.

Lemma keys_equal_to_no_transaction self v :
  pending_transactions_list self = [] →
  keys_equal_to self v
  = count_keys (λ k, database self !! k = Some v) (dom (database self)).
Proof.
  intros Hp. unfold keys_equal_to, count_keys, all_keys. rewrite Hp. simpl.
  rewrite (right_id_L ∅ (∪)). do 2 f_equal.
  apply list_filter_iff. intros k.
  by rewrite get_result_no_transaction.
Qed.

(** The number of keys holding [u] after the committed table takes
    [value] for [key]. *)
Lemma count_keys_insert (db : gmap string string) key value u :
  count_keys (λ k, <[key := value]> db !! k = Some u) (dom (<[key := value]> db))
  = count_keys (λ k, db !! k = Some u) (dom db)
    - indicator (db !! key) u + (if decide (value = u) then 1 else 0).
Proof.
  rewrite dom_insert_L.
  rewrite (count_keys_split _ ({[key]} ∪ dom db) key).
  rewrite (count_keys_split (λ k, db !! k = Some u) (dom db) key).
  rewrite difference_union_distr_l_L, difference_diag_L, (left_id_L ∅ (∪)).
  rewrite (count_keys_ext (λ k, <[key := value]> db !! k = Some u)
             (λ k, db !! k = Some u) (dom db ∖ {[key]})).
  2:{ intros k [_ Hk]%elem_of_difference. rewrite elem_of_singleton in Hk.
      by rewrite lookup_insert_ne. }
  unfold indicator.
  destruct (decide (value = u)) as [->|Hv].
  - rewrite (decide_True (P := _ ∧ <[key:=u]> db !! key = Some u))
      by (rewrite lookup_insert_eq; split;
          [apply elem_of_union_l; by apply elem_of_singleton|done]).
    destruct (decide (db !! key = Some u)) as [Hk|Hk].
    + rewrite decide_True; [lia|]. split; [|done].
      apply elem_of_dom. by rewrite Hk.
    + rewrite decide_False; [lia|tauto].
  - rewrite (decide_False (P := _ ∧ <[key:=value]> db !! key = Some u))
      by (rewrite lookup_insert_eq; intros [_ [= ?]]; done).
    destruct (decide (db !! key = Some u)) as [Hk|Hk].
    + rewrite decide_True; [lia|]. split; [|done].
      apply elem_of_dom. by rewrite Hk.
    + rewrite decide_False; [lia|tauto].
Qed.

(** The number of keys holding [u] after the committed table drops
    [key]. *)
Lemma count_keys_delete (db : gmap string string) key u :
  count_keys (λ k, delete key db !! k = Some u) (dom (delete key db))
  = count_keys (λ k, db !! k = Some u) (dom db) - indicator (db !! key) u.
Proof.
  rewrite dom_delete_L.
  rewrite (count_keys_split (λ k, db !! k = Some u) (dom db) key).
  rewrite (count_keys_ext (λ k, delete key db !! k = Some u)
             (λ k, db !! k = Some u) (dom db ∖ {[key]})).
  2:{ intros k [_ Hk]%elem_of_difference. rewrite elem_of_singleton in Hk.
      by rewrite lookup_delete_ne. }
  unfold indicator.
  destruct (decide (db !! key = Some u)) as [Hk|Hk].
  - rewrite decide_True; [lia|]. split; [|done].
    apply elem_of_dom. by rewrite Hk.
  - rewrite decide_False; [lia|tauto].
Qed.

Lemma count_keys_holder (db : gmap string string) key u :
  db !! key = Some u →
  0 < count_keys (λ k, db !! k = Some u) (dom db).
Proof.
  intros Hk. rewrite (count_keys_split _ (dom db) key).
  rewrite decide_True by (split; [apply elem_of_dom; by rewrite Hk|done]).
  unfold count_keys. lia.
Qed.

Lemma index_consistent_init : index_consistent init.
Proof.
  split_and!; [done| |done].
  intros k v. unfold init. simpl. by rewrite lookup_empty.
Qed.

Lemma index_consistent_set self key value :
  index_consistent self →
  value ≠ "" →
  database self !! key ≠ Some value →
  index_consistent (set_ self key value false).
Proof.
  intros (Hp & Hne & Hidx) Hv Hk.
  destruct (set_no_transaction self key value Hp) as [Hdb Hp'].
  split_and!; [done| |].
  - intros k v. rewrite Hdb, lookup_insert.
    case_decide; [by intros [= <-]|apply Hne].
  - intros u.
    rewrite set_index, Hidx, !keys_equal_to_no_transaction by done.
    rewrite Hdb, count_keys_insert.
    destruct (database self !! key) as [o|] eqn:Ho; simpl.
    + rewrite bool_decide_eq_true_2 by by eapply Hne.
      rewrite bool_decide_eq_true_2 by done. simpl. lia.
    + unfold indicator. rewrite (decide_False (P := None = Some u)) by done.
      lia.
Qed.

Lemma index_consistent_unset self key :
  index_consistent self → index_consistent (unset self key false).
Proof.
  intros (Hp & Hne & Hidx).
  destruct (unset_no_transaction self key Hp) as [Hdb Hp'].
  split_and!; [done| |].
  - intros k v. rewrite Hdb. destruct (truthy _); [|apply Hne].
    rewrite lookup_delete. case_decide; [done|apply Hne].
  - intros u.
    rewrite unset_index, Hidx, !keys_equal_to_no_transaction by done.
    rewrite Hdb.
    destruct (database self !! key) as [o|] eqn:Ho; simpl.
    + rewrite bool_decide_eq_true_2 by by eapply Hne.
      rewrite count_keys_delete, Ho. simpl.
      rewrite bool_decide_eq_true_2; [done|].
      rewrite <- numequalto_result_vc_get, Hidx.
      rewrite keys_equal_to_no_transaction by done.
      by apply (count_keys_holder _ key).
    + lia.
Qed.

Lemma index_consistent_exec self c :
  index_consistent self → plain_command self c →
  index_consistent (exec self c).1.
Proof.
  intros Hself Hc. destruct c; simpl in *; try done.
  - destruct Hc. by apply index_consistent_set.
  - by apply index_consistent_unset.
  - by rewrite (rollback_no_transaction self (proj1 Hself)).
  - by rewrite (commit_no_transaction self (proj1 Hself)).
Qed.

Lemma index_consistent_run cs self :
  index_consistent self → plain_commands self cs →
  index_consistent (run self cs).
Proof.
  revert self. induction cs as [|c cs IH]; intros self Hself Hcs; [done|].
  destruct Hcs as [Hc Hcs]. apply IH; [|done].
  by apply index_consistent_exec.
Qed.

Lemma plain_commands_take cs self n :
  plain_commands self cs → plain_commands self (take n cs).
Proof.
  revert self n. induction cs as [|c cs IH]; intros self [|n]; simpl; try done.
  intros [Hc Hcs]. split; [done|]. by apply IH.
Qed.

(** X7: from the fresh store, for the calls [set(key, value)],
    [unset(key)], [get], [numequalto], [rollback] and [commit], the
    parameter [commit] left at its default and no [begin] among them, in
    which no [set] passes an empty value or the value the key already has,
    [numequalto(v)] prints the number of keys for which [get] finds [v],
    for every [v], after every call of the sequence. *)
Theorem plain_commands_index_consistent (cs : list command) (n : nat) (v : string) :
  plain_commands init cs →
  numequalto_result (run init (take n cs)) v
  = keys_equal_to (run init (take n cs)) v.
Proof.
  intros Hcs.
  apply (index_consistent_run (take n cs) init index_consistent_init).
  by apply plain_commands_take.
Qed.

Lemma plain_commands_index_consistent_witness :
  numequalto_result
    (run init (take 4 [SET "a" "10"; SET "b" "10"; UNSET "a"; SET "b" "20";
                       ROLLBACK; UNSET "c"])) "10"
  = keys_equal_to
      (run init (take 4 [SET "a" "10"; SET "b" "10"; UNSET "a"; SET "b" "20";
                         ROLLBACK; UNSET "c"])) "10".
Proof.
  apply (plain_commands_index_consistent
           [SET "a" "10"; SET "b" "10"; UNSET "a"; SET "b" "20";
            ROLLBACK; UNSET "c"] 4 "10").
  vm_compute. repeat split; discriminate.
Defined.

(** * The read loop *)

(** ** Stripped lines and their pieces *)

Lemma rstrip_last s a :
  last_char (rstrip s) = Some a → py_isspace a = false.
Proof.
  induction s as [|a0 s IH]; simpl; [done|].
  destruct (rstrip s) as [|b r] eqn:Hr.
  - destruct (py_isspace a0) eqn:Ha0; simpl; [done|]. by intros [= <-].
  - change (last_char (String a0 (String b r)))
      with (match last_char (String b r) with
            | None => Some a0
            | Some c => Some c
            end).
    destruct (last_char (String b r)) as [c|] eqn:Hc.
    + intros [= <-]. by apply IH.
    + simpl in Hc. by destruct (last_char r).
Qed.

Lemma split_space_cons s : ∃ tok rest, split_space s = tok :: rest.
Proof.
  destruct s as [|a s]; simpl; [eauto|].
  case_decide; [eauto|]. destruct (split_space s); eauto.
Qed.

Lemma split_space_last_empty s toks :
  split_space s = toks ++ [""] → s = "" ∨ last_char s = Some Ascii.Space.
Proof.
  revert toks. induction s as [|a s IH]; intros toks; [by left|].
  simpl. intros Hsplit. right.
  destruct (split_space_cons s) as (tok & rest & Hs).
  assert (∀ toks', split_space s = toks' ++ [""] →
            match last_char s with None => Some a | Some b => Some b end
            = Some Ascii.Space ∨ s = "") as Hrec.
  { intros toks' [->|Hl]%IH; [by right|]. left. by rewrite Hl. }
  case_decide as Ha.
  - subst a. destruct toks as [|t toks]; simpl in Hsplit.
    + rewrite Hs in Hsplit. done.
    + injection Hsplit as _ Hsplit.
      destruct (Hrec _ Hsplit) as [?| ->]; done.
  - rewrite Hs in Hsplit. destruct toks as [|t toks]; simpl in Hsplit.
    + done.
    + injection Hsplit as _ Hrest.
      destruct (Hrec (tok :: toks)) as [?|Hempty]; [by rewrite Hs, Hrest|done|].
      subst s. simpl in Hs. injection Hs as _ <-. by destruct toks.
Qed.

Lemma strip_split_last raw toks tok :
  split_space (strip raw) = toks ++ [tok] →
  toks ≠ [] →
  tok ≠ "".
Proof.
  intros Hsplit Htoks ->.
  destruct (split_space_last_empty _ _ Hsplit) as [Hempty|Hlast].
  - rewrite Hempty in Hsplit. simpl in Hsplit. by destruct toks as [|? [|? ?]].
  - by apply rstrip_last in Hlast.
Qed.

(** X8: when a stripped line is split on single spaces, its last piece
    is not empty unless it is the only piece.  So the value of a
    two-argument SET, and the flag of a three-argument one, are never the
    empty string. *)
Theorem last_piece_nonempty (raw : string) (toks : list string) (tok : string) :
  split_space (strip raw) = toks ++ [tok] →
  toks ≠ [] →
  tok ≠ "".
Proof. apply strip_split_last. Qed.

Lemma last_piece_nonempty_witness : "10" ≠ "".
Proof.
  apply (last_piece_nonempty "  SET a 10  " ["SET"; "a"] "10");
    [reflexivity|discriminate].
Defined.

(** ** Calls with a flag *)

Lemma valid_set : bool_decide ("set" ∈ valid_command_list) = true.
Proof. by vm_compute. Qed.

Lemma valid_unset : bool_decide ("unset" ∈ valid_command_list) = true.
Proof. by vm_compute. Qed.

(** X9: a line [set key value flag] reaches [set] with a true [commit]:
    the value goes straight into the committed table, also while a
    transaction is in progress, and neither the pending blocks nor the
    counters change.  A line [unset key flag] likewise removes the key from
    the committed table only, when its value there is not empty, and
    records no tombstone. *)
Theorem flagged_line_writes_base (data : Database) (raw v key value c : string) :
  (split_space (strip raw) = [v; key; value; c] → lower v = "set" →
   process_line data (strip raw)
   = (mkDatabase (<[key := value]> (database data)) (value_count data)
        (pending_transactions_list data), []))
  ∧ (split_space (strip raw) = [v; key; c] → lower v = "unset" →
     process_line data (strip raw)
     = (if truthy (database data !! key)
        then mkDatabase (delete key (database data)) (value_count data)
               (pending_transactions_list data)
        else data, [])).
Proof.
  split; intros Hsplit Hv.
  - assert (c ≠ "") as Hc
      by (apply (strip_split_last raw [v; key; value] c); done).
    unfold process_line. rewrite Hsplit. simpl. rewrite Hv, valid_set.
    unfold call_method. rewrite decide_True by done.
    unfold py_true. rewrite bool_decide_eq_true_2 by done.
    by rewrite set_commit.
  - assert (c ≠ "") as Hc
      by (apply (strip_split_last raw [v; key] c); done).
    unfold process_line. rewrite Hsplit. simpl. rewrite Hv, valid_unset.
    unfold call_method. rewrite decide_False by done.
    rewrite decide_False by done. rewrite decide_True by done.
    unfold py_true. rewrite bool_decide_eq_true_2 by done.
    by rewrite unset_commit.
Qed.

Lemma flagged_line_writes_base_witness :
  process_line shadowed_store (strip "SET a 30 now")
  = (mkDatabase (<["a" := "30"]> (database shadowed_store))
       (value_count shadowed_store)
       (pending_transactions_list shadowed_store), []).
Proof.
  apply (proj1 (flagged_line_writes_base shadowed_store
                  "SET a 30 now" "SET" "a" "30" "now")); reflexivity.
Defined.

(** ** Calls that fit no signature *)

Lemma printed_not_invalid (out : list output) :
  Printed <$> out ≠ [InvalidArguments].
Proof. by destruct out as [|? [|? ?]]. Qed.

Lemma elem_of_valid_command_list c :
  c ∈ valid_command_list →
  c = "set" ∨ c = "get" ∨ c = "unset" ∨ c = "numequalto"
  ∨ c = "begin" ∨ c = "rollback" ∨ c = "commit".
Proof.
  unfold valid_command_list. rewrite !elem_of_cons, elem_of_nil. tauto.
Qed.

Lemma call_method_arity data c args :
  c ∈ valid_command_list →
  call_method data c args = None ↔ length args ∉ accepted_arities c.
Proof.
  intros Hc%elem_of_valid_command_list.
  destruct Hc as [->|[->|[->|[->|[->|[->| ->]]]]]];
    unfold call_method, accepted_arities;
    repeat (first [rewrite decide_True by done|rewrite decide_False by done]);
    destruct args as [|a1 [|a2 [|a3 [|a4 args]]]];
    cbn [length]; rewrite ?elem_of_cons, ?elem_of_nil;
    (split; [intros ?; try done; lia|intros Hn; try done; destruct Hn; auto]).
Qed.

(** X10: a line whose first piece, in lower case, names a method is
    answered with "Invalid command (check number of arguments)" exactly
    when the number of its other pieces fits no signature of the method,
    and then the store is left as it was. *)
Theorem wrong_arity_rejected (data : Database) (line c : string)
    (args : list string) :
  split_space line = c :: args →
  lower c ∈ valid_command_list →
  ((process_line data line).2 = [InvalidArguments]
   ↔ length args ∉ accepted_arities (lower c))
  ∧ ((process_line data line).2 = [InvalidArguments] →
     (process_line data line).1 = data).
Proof.
  intros Hsplit Hc. unfold process_line. rewrite Hsplit. simpl.
  rewrite bool_decide_eq_true_2 by done.
  rewrite <- (call_method_arity data) by done.
  destruct (call_method data (lower c) args) as [[data' out]|]; simpl.
  - split; [split; [|done]|]; intros Hout; by apply printed_not_invalid in Hout.
  - done.
Qed.

Lemma wrong_arity_rejected_witness :
  (process_line nested_store "GET a b").2 = [InvalidArguments]
  ∧ (process_line nested_store "GET a b").1 = nested_store.
Proof.
  assert (lower "GET" ∈ valid_command_list) as Hc
    by (apply (bool_decide_unpack _); vm_compute; exact I).
  destruct (wrong_arity_rejected nested_store "GET a b" "GET" ["a"; "b"]
              eq_refl Hc) as [Hiff Hsame].
  assert ((process_line nested_store "GET a b").2 = [InvalidArguments]) as Hout.
  { apply Hiff. apply (bool_decide_unpack _). vm_compute. exact I. }
  split; [exact Hout|exact (Hsame Hout)].
Defined.

(** ** Where the loop stops *)

Lemma main_loop_cons data raw rest :
  main_loop data (raw :: rest)
  = if bool_decide (strip raw ∈ ["END"; "end"]) then (data, [], Ended)
    else (let '(data', out) := process_line data (strip raw) in
          let '(data'', out', e) := main_loop data' rest in
          (data'', out ++ out', e)).
Proof. done. Qed.

(** X11: the loop handles the lines in order up to the first one that
    strips to END or end, stops there and never handles a line after it;
    when no line strips to END or end, every line is handled and the
    program ends with the [EOFError] of [raw_input]. *)
Theorem end_stops_reading (data : Database) (lines : list string) :
  Forall (λ raw, strip raw ∉ ["END"; "end"]) lines →
  main_loop data lines = (process_lines data lines, EOFError)
  ∧ ∀ raw rest,
      strip raw ∈ ["END"; "end"] →
      main_loop data (lines ++ raw :: rest) = (process_lines data lines, Ended).
Proof.
  intros Hlines. revert data.
  induction Hlines as [|r lines Hr _ IH]; intros data.
  - split; [done|]. intros raw rest Hraw.
    simpl app. rewrite main_loop_cons. by rewrite bool_decide_eq_true_2.
  - split.
    + rewrite main_loop_cons, (bool_decide_eq_false_2 _ Hr).
      simpl process_lines.
      destruct (process_line data (strip r)) as [data' out].
      rewrite (proj1 (IH data')). by destruct (process_lines data' lines).
    + intros raw rest Hraw. simpl app.
      rewrite main_loop_cons, (bool_decide_eq_false_2 _ Hr).
      simpl process_lines.
      destruct (process_line data (strip r)) as [data' out].
      rewrite (proj2 (IH data') raw rest Hraw).
      by destruct (process_lines data' lines).
Qed.

Lemma end_stops_reading_witness :
  main_loop init ["SET a 10"; "GET a"] = (process_lines init ["SET a 10"; "GET a"], EOFError)
  ∧ main_loop init (["SET a 10"; "GET a"] ++ " end " :: ["GET a"])
    = (process_lines init ["SET a 10"; "GET a"], Ended).
Proof.
  assert (Forall (λ raw, strip raw ∉ ["END"; "end"]) ["SET a 10"; "GET a"])
    as Hlines.
  { repeat constructor; apply (bool_decide_unpack _); vm_compute; exact I. }
  destruct (end_stops_reading init ["SET a 10"; "GET a"] Hlines) as [Heof Hend].
  split; [exact Heof|].
  apply Hend. apply (bool_decide_unpack _). vm_compute. exact I.
Defined.

Lemma lower_three_no_space s :
  lower s = "end" → split_space s = [s].
Proof.
  destruct s as [|a [|b [|c [|d s]]]]; simpl; try done.
  intros [= Ha Hb Hc].
  assert (∀ x y, lower_ascii x = y → y ≠ Ascii.Space → x ≠ Ascii.Space) as Hsp.
  { intros x y <- Hy ->. by apply Hy. }
  rewrite !decide_False; [done|..];
    first [by apply (Hsp _ _ Ha)|by apply (Hsp _ _ Hb)|by apply (Hsp _ _ Hc)].
Qed.

(** X12: only the spellings END and end stop the loop.  A line that
    strips to any other capitalisation of "end" is answered with the
    invalid-verb message, the store is left as it was and the loop goes on
    with the next line. *)
Theorem end_other_case_goes_on (data : Database) (raw : string)
    (rest : list string) :
  lower (strip raw) = "end" →
  strip raw ∉ ["END"; "end"] →
  process_line data (strip raw) = (data, [InvalidVerb])
  ∧ main_loop data (raw :: rest)
    = ((main_loop data rest).1.1, InvalidVerb :: (main_loop data rest).1.2,
       (main_loop data rest).2).
Proof.
  intros Hlower Hend.
  assert (process_line data (strip raw) = (data, [InvalidVerb])) as Hline.
  { unfold process_line. rewrite (lower_three_no_space _ Hlower). simpl.
    rewrite Hlower. by vm_compute. }
  split; [done|].
  rewrite main_loop_cons, (bool_decide_eq_false_2 _ Hend), Hline.
  by destruct (main_loop data rest) as [[d o] e].
Qed.

Lemma end_other_case_goes_on_witness :
  process_line nested_store (strip "End") = (nested_store, [InvalidVerb])
  ∧ main_loop nested_store ("End" :: ["GET a"])
    = ((main_loop nested_store ["GET a"]).1.1,
       InvalidVerb :: (main_loop nested_store ["GET a"]).1.2,
       (main_loop nested_store ["GET a"]).2).
Proof.
  apply (end_other_case_goes_on nested_store "End" ["GET a"]).
  - reflexivity.
  - apply (bool_decide_unpack _). vm_compute. exact I.
Defined.

(** ** Values the loop stores *)

Lemma unset_flag_values_nonempty self key b :
  values_nonempty self → values_nonempty (unset self key b).
Proof.
  destruct b; [|apply unset_values_nonempty].
  intros [Hbase Hblocks]. rewrite unset_commit.
  destruct (truthy _); [|done]. split; [|done].
  intros k v. simpl. rewrite lookup_delete. case_decide; [done|apply Hbase].
Qed.

Lemma process_line_values_nonempty data raw :
  values_nonempty data →
  (length (split_space (strip raw)) ≤ 3)%nat →
  values_nonempty (process_line data (strip raw)).1.
Proof.
  intros Hdata Hlen. unfold process_line.
  destruct (split_space_cons (strip raw)) as (c & args & Hsplit).
  rewrite Hsplit in *. cbn [hd tail].
  case_bool_decide as Hc; [|done].
  apply elem_of_valid_command_list in Hc.
  destruct args as [|a1 [|a2 [|a3 args]]]; simpl in Hlen; [..|lia];
    destruct Hc as [->|[->|[->|[->|[->|[->| ->]]]]]];
    unfold call_method;
    repeat (first [rewrite decide_True by done|rewrite decide_False by done]);
    simpl; try done.
    + destruct Hdata as [Hbase Hblocks]. split; [done|]. simpl.
      apply Forall_app. split; [done|]. constructor; [|constructor].
      intros k v. by rewrite lookup_empty.
    + pose proof (rollback_values_nonempty data Hdata) as Hr.
      by destruct (rollback data).
    + pose proof (commit_values_nonempty data Hdata) as Hr.
      by destruct (commit data).
    + by apply unset_values_nonempty.
    + apply set_values_nonempty; [|done].
      by apply (strip_split_last raw [c; a1] a2).
    + by apply unset_flag_values_nonempty.
Qed.

Lemma process_lines_values_nonempty lines data :
  values_nonempty data →
  Forall (λ raw, (length (split_space (strip raw)) ≤ 3)%nat) lines →
  values_nonempty (process_lines data lines).1.
Proof.
  intros Hdata Hlines. revert data Hdata.
  induction Hlines as [|raw lines Hraw _ IH]; intros data Hdata; [done|].
  simpl.
  pose proof (process_line_values_nonempty data raw Hdata Hraw) as Hstep.
  destruct (process_line data (strip raw)) as [data' out].
  specialize (IH data' Hstep).
  by destruct (process_lines data' lines).
Qed.

(** X13: as long as no input line has more than three pieces, so that no
    call passes a flag after the value, no value the program stores, in
    the committed table or in a pending block, is the empty string. *)
Theorem short_lines_values_nonempty (lines : list string) :
  Forall (λ raw, (length (split_space (strip raw)) ≤ 3)%nat) lines →
  values_nonempty (process_lines init lines).1.
Proof.
  intros Hlines. apply process_lines_values_nonempty; [|done].
  apply (run_values_nonempty []). constructor.
Qed.

Lemma short_lines_values_nonempty_witness :
  values_nonempty
    (process_lines init ["SET a 10"; "BEGIN"; "SET b  "; "UNSET a"; "COMMIT"]).1.
Proof.
  apply (short_lines_values_nonempty
           ["SET a 10"; "BEGIN"; "SET b  "; "UNSET a"; "COMMIT"]).
  repeat constructor; vm_compute; lia.
Defined.

(** A four-piece line can store the empty string: with two spaces after
    the key, the value is the empty piece and the last piece is the
    flag. *)
Example flagged_set_stores_empty_value :
  database (process_line init (strip "SET a  x")).1 !! "a" = Some "".
Proof. by vm_compute. Qed.

(** * The counters *)

(** ** What [set] and [unset] do, for every store *)

(** X14: [set(key, value)] writes into the innermost block when a
    transaction is in progress and into the committed table otherwise.
    For every [u], what [numequalto(u)] prints goes up by one when [u] is
    [value] and down by one when [u] is the non-empty value, other than
    [value], that the committed table held for the key; the pending blocks
    play no part in the counters. *)
Theorem set_effect (self : Database) (key value : string) :
  (pending_transactions_list self = [] →
   database (set_ self key value false) = <[key := value]> (database self)
   ∧ pending_transactions_list (set_ self key value false) = [])
  ∧ (∀ l t, pending_transactions_list self = l ++ [t] →
       database (set_ self key value false) = database self
       ∧ pending_transactions_list (set_ self key value false)
         = l ++ [<[key := Some value]> t])
  ∧ ∀ u, numequalto_result (set_ self key value false) u
         = numequalto_result self u
           + (if decide (value = u) then 1 else 0)
           - (if truthy (database self !! key)
                 && bool_decide (database self !! key ≠ Some value)
              then indicator (database self !! key) u else 0).
Proof.
  split_and!.
  - apply set_no_transaction.
  - intros l t. apply set_in_transaction.
  - apply set_index.
Qed.

Lemma set_effect_witness :
  database (set_ committed_store "a" "20" false)
  = <["a" := "20"]> (database committed_store)
  ∧ pending_transactions_list (set_ committed_store "a" "20" false) = [].
Proof. apply (proj1 (set_effect committed_store "a" "20")). reflexivity. Defined.

(** X15: [unset(key)] records a tombstone in the innermost block when a
    transaction is in progress, and otherwise removes the key from the
    committed table when its value there is not empty.  The only counter
    that can change is the one of the non-empty value the committed table
    held for the key: it goes down by one when it is positive.  No counter
    that was zero or more goes below zero. *)
Theorem unset_effect (self : Database) (key : string) :
  (pending_transactions_list self = [] →
   database (unset self key false)
   = (if truthy (database self !! key) then delete key (database self)
      else database self)
   ∧ pending_transactions_list (unset self key false) = [])
  ∧ (∀ l t, pending_transactions_list self = l ++ [t] →
       database (unset self key false) = database self
       ∧ pending_transactions_list (unset self key false)
         = l ++ [<[key := None]> t])
  ∧ (∀ u, numequalto_result (unset self key false) u
          = numequalto_result self u
            - (if truthy (database self !! key)
                  && bool_decide (0 < vc_get (value_count self)
                                        (default "" (database self !! key)))
               then indicator (database self !! key) u else 0))
  ∧ ∀ u, 0 ≤ numequalto_result self u →
         0 ≤ numequalto_result (unset self key false) u.
Proof.
  split_and!.
  - apply unset_no_transaction.
  - intros l t. apply unset_in_transaction.
  - apply unset_index.
  - intros u. apply unset_not_below_zero.
Qed.

Lemma unset_effect_witness :
  0 ≤ numequalto_result (unset unset_once_store "a" false) "10".
Proof.
  apply (proj2 (proj2 (proj2 (unset_effect unset_once_store "a")))).
  by vm_compute.
Defined.

(** ** Values that were never set *)

Section stored_values.
Context (ok : string → Prop).
Implicit Types (vc : gmap string Z) (t : overlay).

Lemma vc_add_key vc v n u :
  is_Some (vc_add vc v n !! u) → u = v ∨ is_Some (vc !! u).
Proof.
  unfold vc_add. rewrite lookup_insert. case_decide; [by left|by right].
Qed.

Lemma vc_touch_key vc v u :
  is_Some (vc_touch vc v !! u) → u = v ∨ is_Some (vc !! u).
Proof.
  unfold vc_touch. destruct (vc !! v); [by right|].
  rewrite lookup_insert. case_decide; [by left|by right].
Qed.

Lemma set_value_count self key value :
  value_count (set_ self key value false)
  = (if truthy (database self !! key)
        && bool_decide (database self !! key ≠ Some value)
     then vc_add (vc_add (value_count self) value 1)
            (default "" (database self !! key)) (-1)
     else vc_add (value_count self) value 1).
Proof. unfold set_. by destruct (nonempty _). Qed.

Lemma unset_value_count self key u :
  is_Some (value_count (unset self key false) !! u) →
  is_Some (value_count self !! u) ∨ database self !! key = Some u.
Proof.
  unfold unset.
  set (self1 := if nonempty _ && negb false then _ else _).
  assert (value_count self1 = value_count self) as Hvc.
  { subst self1. destruct (nonempty _); simpl; [done|]. by destruct (truthy _). }
  clearbody self1.
  destruct (truthy (database self !! key)) eqn:Htr; simpl;
    [|rewrite Hvc; by left].
  apply truthy_Some in Htr as (w & -> & _). simpl. rewrite Hvc.
  case_bool_decide; simpl.
  - intros [->|[->|?]%vc_touch_key]%vc_add_key; auto.
  - intros [->|?]%vc_touch_key; auto.
Qed.

Lemma insert_block_satisfies t key e :
  (∀ k v, t !! k = Some (Some v) → ok v) →
  (∀ v, e = Some v → ok v) →
  ∀ k v, <[key := e]> t !! k = Some (Some v) → ok v.
Proof.
  intros Ht He k v. rewrite lookup_insert. case_decide.
  - intros [= ->]. by apply He.
  - apply Ht.
Qed.

Lemma set_satisfies self key value :
  ok value → stored_values_satisfy ok self →
  stored_values_satisfy ok (set_ self key value false).
Proof.
  intros Hv (Hbase & Hblocks & Hidx).
  assert (∀ v, is_Some (value_count (set_ self key value false) !! v) → ok v)
    as Hidx'.
  { intros v. rewrite set_value_count.
    destruct (truthy (database self !! key)) eqn:Htr; simpl.
    - apply truthy_Some in Htr as (w & Hw & _). rewrite Hw. simpl.
      case_bool_decide.
      + intros [->|[->|?]%vc_add_key]%vc_add_key; eauto.
      + intros [->|?]%vc_add_key; eauto.
    - intros [->|?]%vc_add_key; eauto. }
  destruct (snoc_or_nil (pending_transactions_list self)) as [Hp|(l & t & Hp)].
  - destruct (set_no_transaction self key value Hp) as [Hdb Hp'].
    split_and!; [|by rewrite Hp'|done].
    intros k v. rewrite Hdb, lookup_insert.
    case_decide; [by intros [= <-]|apply Hbase].
  - destruct (set_in_transaction self l t key value Hp) as [Hdb Hp'].
    split_and!; [by rewrite Hdb| |done].
    rewrite Hp'. rewrite Hp in Hblocks.
    apply Forall_app in Hblocks as [Hl [Ht _]%Forall_cons].
    apply Forall_app. split; [done|]. constructor; [|constructor].
    apply insert_block_satisfies; [done|]. by intros v [= <-].
Qed.

Lemma unset_satisfies self key :
  stored_values_satisfy ok self →
  stored_values_satisfy ok (unset self key false).
Proof.
  intros (Hbase & Hblocks & Hidx).
  assert (∀ v, is_Some (value_count (unset self key false) !! v) → ok v)
    as Hidx'.
  { intros v [?|?]%unset_value_count; eauto. }
  destruct (snoc_or_nil (pending_transactions_list self)) as [Hp|(l & t & Hp)].
  - destruct (unset_no_transaction self key Hp) as [Hdb Hp'].
    split_and!; [|by rewrite Hp'|done].
    intros k v. rewrite Hdb. destruct (truthy _); [|apply Hbase].
    rewrite lookup_delete. case_decide; [done|apply Hbase].
  - destruct (unset_in_transaction self l t key Hp) as [Hdb Hp'].
    split_and!; [by rewrite Hdb| |done].
    rewrite Hp'. rewrite Hp in Hblocks.
    apply Forall_app in Hblocks as [Hl [Ht _]%Forall_cons].
    apply Forall_app. split; [done|]. constructor; [|constructor].
    by apply insert_block_satisfies.
Qed.

Lemma repair_fold_keys (db : gmap string string) t vc ks :
  (∀ k v, db !! k = Some v → ok v) →
  (∀ k v, t !! k = Some (Some v) → ok v) →
  (∀ v, is_Some (vc !! v) → ok v) →
  ∀ v, is_Some (foldl (repair_key db t) vc ks !! v) → ok v.
Proof.
  intros Hdb Ht. revert vc. induction ks as [|k ks IH]; intros vc Hvc; [done|].
  simpl. apply IH. intros v. unfold repair_key.
  assert (∀ u, is_Some ((if truthy (db !! k)
                          then vc_add vc (default "" (db !! k)) 1
                          else vc) !! u) → ok u) as Hvc1.
  { intros u. destruct (truthy (db !! k)) eqn:Htr; [|apply Hvc].
    apply truthy_Some in Htr as (w & Hw & _). rewrite Hw. simpl.
    intros [->|?]%vc_add_key; eauto. }
  destruct (t !! k) as [[w|]|] eqn:Hk; [|apply Hvc1..].
  intros [->|?]%vc_add_key; eauto.
Qed.

Lemma rollback_satisfies self :
  stored_values_satisfy ok self → stored_values_satisfy ok (rollback self).1.
Proof.
  intros (Hbase & Hblocks & Hidx).
  destruct (last (pending_transactions_list self)) as [t|] eqn:Hlast.
  - rewrite (rollback_pending _ _ Hlast).
    rewrite (last_removelast _ _ Hlast) in Hblocks.
    apply Forall_app in Hblocks as [Hl [Ht _]%Forall_cons].
    split_and!; [done..|]. simpl. by apply repair_fold_keys.
  - unfold rollback. by rewrite Hlast.
Qed.

Lemma commit_satisfies self :
  stored_values_satisfy ok self → stored_values_satisfy ok (commit self).1.
Proof.
  intros (Hbase & Hblocks & Hidx).
  destruct (snoc_or_nil (pending_transactions_list self)) as [Hp|(l & t & Hp)].
  - by rewrite (commit_no_transaction self Hp).
  - assert (pending_transactions_list self ≠ []) as Hne
      by (rewrite Hp; by destruct l).
    destruct (commit_pending self Hne) as (Hdb & Hvc & Hnil & _).
    split_and!; [|rewrite Hnil; constructor|by rewrite Hvc].
    intros k v. rewrite Hdb. unfold get_pending.
    destruct (get_loop _ k) as [[w|]|] eqn:Hloop; simpl.
    + intros [= <-].
      apply get_loop_elem in Hloop as (t' & Ht' & Hk).
      rewrite elem_of_reverse in Ht'. rewrite Forall_forall in Hblocks.
      exact (Hblocks t' Ht' k w Hk).
    + destruct (truthy _); [done|apply Hbase].
    + apply Hbase.
Qed.

Lemma exec_satisfies self c :
  set_value_satisfies ok c →
  stored_values_satisfy ok self → stored_values_satisfy ok (exec self c).1.
Proof.
  destruct c; simpl; intros Hc Hself; try done.
  - by apply set_satisfies.
  - by apply unset_satisfies.
  - destruct Hself as (Hbase & Hblocks & Hidx). split_and!; [done| |done].
    simpl. apply Forall_app. split; [done|]. constructor; [|constructor].
    intros k v. by rewrite lookup_empty.
  - by apply rollback_satisfies.
  - by apply commit_satisfies.
Qed.

Lemma run_satisfies cs self :
  Forall (set_value_satisfies ok) cs →
  stored_values_satisfy ok self → stored_values_satisfy ok (run self cs).
Proof.
  intros Hcs. revert self.
  induction Hcs as [|c cs Hc _ IH]; intros self Hself; [done|].
  apply IH. by apply exec_satisfies.
Qed.

Lemma init_satisfies : stored_values_satisfy ok init.
Proof.
  unfold init. split_and!; simpl; [|constructor|].
  - intros k v. by rewrite lookup_empty.
  - intros v. rewrite lookup_empty. by intros [? ?].
Qed.

Lemma get_result_satisfies self key v :
  stored_values_satisfy ok self → get_result self key = Some v → ok v.
Proof.
  intros (Hbase & Hblocks & _). unfold get_result, get_pending.
  destruct (get_loop _ key) as [e|] eqn:Hloop.
  - apply get_loop_elem in Hloop as (t & Ht & Hk).
    rewrite elem_of_reverse in Ht.
    intros ->. rewrite Forall_forall in Hblocks.
    exact (Hblocks t Ht key v Hk).
  - apply Hbase.
Qed.
End stored_values.

(** * Lines and calls *)

Lemma split_space_prefix v rest :
  has_space v = false →
  split_space (v +:+ String Ascii.Space rest) = v :: split_space rest.
Proof.
  induction v as [|a v IH]; simpl; [done|].
  intros [Ha Hv]%orb_false_elim. apply bool_decide_eq_false in Ha.
  rewrite decide_False by done. by rewrite IH.
Qed.

Lemma append_space x : " " +:+ x = String Ascii.Space x.
Proof. done. Qed.

Lemma split_space_whole v : has_space v = false → split_space v = [v].
Proof.
  induction v as [|a v IH]; simpl; [done|].
  intros [Ha Hv]%orb_false_elim. apply bool_decide_eq_false in Ha.
  rewrite decide_False by done. by rewrite IH.
Qed.

Lemma lower_ascii_space a : lower_ascii a = Ascii.Space → a = Ascii.Space.
Proof. destruct a as [[] [] [] [] [] [] [] []]; by vm_compute. Qed.

Lemma lower_has_space v : has_space (lower v) = has_space v.
Proof.
  induction v as [|a v IH]; simpl; [done|]. rewrite IH. f_equal.
  apply bool_decide_ext. split; [apply lower_ascii_space|by intros ->].
Qed.

Lemma valid_get : bool_decide ("get" ∈ valid_command_list) = true.
Proof. by vm_compute. Qed.

(** ** Lines that strip to themselves *)

Lemma py_isspace_lower a : py_isspace a = true → lower_ascii a = a.
Proof. destruct a as [[] [] [] [] [] [] [] []]; by vm_compute. Qed.

Lemma rstrip_id x a :
  last_char x = Some a → py_isspace a = false → rstrip x = x.
Proof.
  revert a. induction x as [|b x IH]; intros a; simpl; [done|].
  destruct (last_char x) as [c|] eqn:Hc.
  - intros [= ->] Ha. rewrite (IH a) by done.
    destruct x; [done|done].
  - intros [= ->] Ha. destruct x as [|c x]; simpl in *.
    + by rewrite Ha.
    + by destruct (last_char x).
Qed.

Lemma last_char_app x y :
  last_char (x +:+ y)
  = match last_char y with
    | Some b => Some b
    | None => last_char x
    end.
Proof.
  induction x as [|a x IH].
  - change ("" +:+ y) with y. simpl. by destruct (last_char y).
  - change (String a x +:+ y) with (String a (x +:+ y)). simpl.
    rewrite IH. by destruct (last_char y), (last_char x).
Qed.

Lemma last_char_nonempty x : x ≠ "" → is_Some (last_char x).
Proof. destruct x as [|a x]; [done|]. simpl. destruct (last_char x); eauto. Qed.

Lemma has_whitespace_last x a :
  has_whitespace x = false → last_char x = Some a → py_isspace a = false.
Proof.
  induction x as [|b x IH]; simpl; [done|].
  intros [Hb Hx]%orb_false_elim.
  destruct (last_char x) as [c|]; intros [= ->]; [by apply IH|done].
Qed.

Lemma has_whitespace_space x : has_whitespace x = false → has_space x = false.
Proof.
  induction x as [|b x IH]; simpl; [done|].
  intros [Hb Hx]%orb_false_elim. rewrite IH by done.
  rewrite orb_false_r. apply bool_decide_eq_false. by intros ->.
Qed.

(** A line that starts with a spelling of a verb and ends with a byte
    that is not whitespace is what [strip] returns for it. *)
Lemma strip_verb_line c w rest a :
  lower c = w → w ≠ "" → has_whitespace w = false →
  last_char rest = Some a → py_isspace a = false →
  strip (c +:+ rest) = c +:+ rest.
Proof.
  intros Hc Hw Hws Hlast Ha. unfold strip.
  assert (lstrip (c +:+ rest) = c +:+ rest) as ->.
  { destruct c as [|b c]; [by subst w|]. subst w.
    simpl in Hws. apply orb_false_elim in Hws as [Hb _].
    change (String b c +:+ rest) with (String b (c +:+ rest)).
    simpl. destruct (py_isspace b) eqn:Hsp; [|done].
    by rewrite (py_isspace_lower b Hsp), Hsp in Hb. }
  apply (rstrip_id _ a); [|done].
  by rewrite last_char_app, Hlast.
Qed.

Lemma last_char_clean x :
  x ≠ "" → has_whitespace x = false →
  ∃ a, last_char x = Some a ∧ py_isspace a = false.
Proof.
  intros Hx Hws. destruct (last_char_nonempty x Hx) as [a Ha].
  exists a. split; [done|]. by apply (has_whitespace_last x).
Qed.

Lemma main_loop_step data raw rest :
  strip raw ∉ ["END"; "end"] →
  main_loop data (raw :: rest)
  = ((main_loop (process_line data (strip raw)).1 rest).1.1,
     (process_line data (strip raw)).2
       ++ (main_loop (process_line data (strip raw)).1 rest).1.2,
     (main_loop (process_line data (strip raw)).1 rest).2).
Proof.
  intros Hend. rewrite main_loop_cons, (bool_decide_eq_false_2 _ Hend).
  destruct (process_line data (strip raw)) as [data' out]. simpl.
  by destruct (main_loop data' rest) as [[d o] e].
Qed.

Lemma not_end_line line c a args :
  split_space line = c :: a :: args → line ∉ ["END"; "end"].
Proof.
  intros Hsplit [->|[->|[]%elem_of_nil]%elem_of_cons]%elem_of_cons;
    by vm_compute in Hsplit.
Qed.

(** X17: for a non-empty key and a non-empty value without whitespace
    bytes, the program that reads the line made of a spelling of "set",
    the key and the value, with single spaces between them, and then the
    line made of a spelling of "get" and the key, calls [set(key, value)],
    prints nothing for the first line and the value for the second, and
    goes on with the store that [set] left. *)
Theorem set_line_then_get_line (data : Database) (s g key value : string)
    (rest : list string) :
  lower s = "set" →
  lower g = "get" →
  key ≠ "" → has_whitespace key = false →
  value ≠ "" → has_whitespace value = false →
  main_loop data
    ((s +:+ " " +:+ key +:+ " " +:+ value) :: (g +:+ " " +:+ key) :: rest)
  = ((main_loop (set_ data key value false) rest).1.1,
     Printed (OutValue value)
       :: (main_loop (set_ data key value false) rest).1.2,
     (main_loop (set_ data key value false) rest).2).
Proof.
  intros Hs Hg Hkey Hkws Hvalue Hvws.
  assert (has_space s = false) as Hs' by by rewrite <- lower_has_space, Hs.
  assert (has_space g = false) as Hg' by by rewrite <- lower_has_space, Hg.
  pose proof (has_whitespace_space _ Hkws) as Hksp.
  pose proof (has_whitespace_space _ Hvws) as Hvsp.
  assert (strip (s +:+ " " +:+ key +:+ " " +:+ value)
          = s +:+ " " +:+ key +:+ " " +:+ value) as Hstrip1.
  { destruct (last_char_clean value Hvalue Hvws) as (a & Ha & Hsp).
    apply (strip_verb_line s "set" _ a); [done..| |done].
    by rewrite !last_char_app, Ha. }
  assert (strip (g +:+ " " +:+ key) = g +:+ " " +:+ key) as Hstrip2.
  { destruct (last_char_clean key Hkey Hkws) as (a & Ha & Hsp).
    apply (strip_verb_line g "get" _ a); [done..| |done].
    by rewrite !last_char_app, Ha. }
  assert (split_space (s +:+ " " +:+ key +:+ " " +:+ value) = [s; key; value])
    as Hsplit1.
  { rewrite !append_space. rewrite (split_space_prefix s) by done.
    rewrite (split_space_prefix key) by done.
    by rewrite (split_space_whole value). }
  assert (split_space (g +:+ " " +:+ key) = [g; key]) as Hsplit2.
  { rewrite !append_space. rewrite (split_space_prefix g) by done.
    by rewrite (split_space_whole key). }
  assert (process_line data (s +:+ " " +:+ key +:+ " " +:+ value)
          = (set_ data key value false, [])) as Hline1.
  { unfold process_line. rewrite Hsplit1. simpl.
    rewrite Hs, valid_set. unfold call_method. by rewrite decide_True. }
  assert (process_line (set_ data key value false) (g +:+ " " +:+ key)
          = (set_ data key value false, [Printed (OutValue value)])) as Hline2.
  { unfold process_line. rewrite Hsplit2. simpl.
    rewrite Hg, valid_get. unfold call_method.
    rewrite decide_False by done. rewrite decide_True by done.
    unfold get. simpl.
    by rewrite (proj1 (get_result_after_set data key value)). }
  rewrite main_loop_step
    by (rewrite Hstrip1; by apply (not_end_line _ s key [value])).
  rewrite Hstrip1, Hline1. cbn [fst snd app].
  rewrite main_loop_step
    by (rewrite Hstrip2; by apply (not_end_line _ g key [])).
  rewrite Hstrip2, Hline2. cbn [fst snd app]. done.
Qed.

Lemma set_line_then_get_line_witness :
  main_loop shadowed_store
    (("Set" +:+ " " +:+ "a" +:+ " " +:+ "30") :: ("GET" +:+ " " +:+ "a")
       :: ["END"])
  = ((main_loop (set_ shadowed_store "a" "30" false) ["END"]).1.1,
     Printed (OutValue "30")
       :: (main_loop (set_ shadowed_store "a" "30" false) ["END"]).1.2,
     (main_loop (set_ shadowed_store "a" "30" false) ["END"]).2).
Proof.
  apply (set_line_then_get_line shadowed_store "Set" "GET" "a" "30" ["END"]);
    first [reflexivity|discriminate].
Defined.

(** ** Values no line has set *)

Section stored_values_lines.
Context (ok : string → Prop).

Lemma set_flag_satisfies self key value b :
  ok value → stored_values_satisfy ok self →
  stored_values_satisfy ok (set_ self key value b).
Proof.
  destruct b; [|apply set_satisfies].
  intros Hv (Hbase & Hblocks & Hidx). rewrite set_commit.
  split_and!; [|done..].
  intros k v. simpl. rewrite lookup_insert.
  case_decide; [by intros [= <-]|apply Hbase].
Qed.

Lemma unset_flag_satisfies self key b :
  stored_values_satisfy ok self →
  stored_values_satisfy ok (unset self key b).
Proof.
  destruct b; [|apply unset_satisfies].
  intros (Hbase & Hblocks & Hidx). rewrite unset_commit.
  destruct (truthy _); [|done]. split_and!; [|done..].
  intros k v. simpl. rewrite lookup_delete. case_decide; [done|apply Hbase].
Qed.

Lemma process_line_satisfies data line :
  (∀ c key value rest,
     split_space line = c :: key :: value :: rest → lower c = "set" →
     ok value) →
  stored_values_satisfy ok data →
  stored_values_satisfy ok (process_line data line).1.
Proof.
  intros Hline Hdata. unfold process_line.
  destruct (split_space_cons line) as (c & args & Hsplit).
  rewrite Hsplit in *. cbn [hd tail].
  case_bool_decide as Hc; [|done].
  apply elem_of_valid_command_list in Hc.
  destruct args as [|a1 [|a2 [|a3 [|a4 args]]]];
    destruct Hc as [Hc|[Hc|[Hc|[Hc|[Hc|[Hc|Hc]]]]]];
    pose proof Hc as Hc'; rewrite Hc;
    unfold call_method;
    repeat (first [rewrite decide_True by done|rewrite decide_False by done]);
    simpl; try done.
  - destruct Hdata as (Hbase & Hblocks & Hidx). split_and!; [done| |done].
    simpl. apply Forall_app. split; [done|]. constructor; [|constructor].
    intros k v. by rewrite lookup_empty.
  - pose proof (rollback_satisfies ok data Hdata) as Hr.
    by destruct (rollback data).
  - pose proof (commit_satisfies ok data Hdata) as Hr.
    by destruct (commit data).
  - by apply unset_satisfies.
  - apply set_satisfies; [|done]. by apply (Hline c a1 a2 []).
  - by apply unset_flag_satisfies.
  - apply set_flag_satisfies; [|done]. by apply (Hline c a1 a2 [a3]).
Qed.

Lemma process_lines_satisfy lines data :
  Forall (λ raw, ∀ c key value rest,
            split_space (strip raw) = c :: key :: value :: rest →
            lower c = "set" → ok value) lines →
  stored_values_satisfy ok data →
  stored_values_satisfy ok (process_lines data lines).1.
Proof.
  intros Hlines. revert data.
  induction Hlines as [|raw lines Hraw _ IH]; intros data Hdata; [done|].
  simpl.
  pose proof (process_line_satisfies data (strip raw) Hraw Hdata) as Hstep.
  destruct (process_line data (strip raw)) as [data' out].
  specialize (IH data' Hstep).
  by destruct (process_lines data' lines).
Qed.
End stored_values_lines.

(** X16: whatever lines the program has handled, a string [v] that no
    line with a spelling of "set" as its first piece had as its third
    piece has no counter and is the value of no key: [numequalto(v)]
    prints 0 and [get] finds [v] for no key, so that, unless [v] is the
    text NULL, [get] prints [v] for no key. *)
Theorem never_set_value_unknown (lines : list string) (v : string) :
  Forall (λ raw, ¬ line_sets_value v raw) lines →
  value_count (process_lines init lines).1 !! v = None
  ∧ numequalto_result (process_lines init lines).1 v = 0
  ∧ (∀ k, get_result (process_lines init lines).1 k ≠ Some v)
  ∧ (v ≠ "NULL" →
     ∀ k, printed_text (get_result (process_lines init lines).1 k) ≠ v).
Proof.
  intros Hlines.
  assert (stored_values_satisfy (λ u, u ≠ v) (process_lines init lines).1)
    as Hrun.
  { apply process_lines_satisfy; [|apply init_satisfies].
    eapply Forall_impl; [exact Hlines|].
    intros raw Hraw c key value rest Hsplit Hc ->.
    apply Hraw. by exists c, key, rest. }
  assert (value_count (process_lines init lines).1 !! v = None) as Hnone.
  { destruct Hrun as (_ & _ & Hidx).
    destruct (value_count (process_lines init lines).1 !! v) as [n|] eqn:Hv;
      [|done].
    by destruct (Hidx v (mk_is_Some _ _ Hv)). }
  assert (∀ k, get_result (process_lines init lines).1 k ≠ Some v) as Hget.
  { intros k Hk. by apply (get_result_satisfies _ _ k v Hrun Hk). }
  split_and!; [done| |done|].
  - unfold numequalto_result. by rewrite Hnone.
  - intros Hnull k.
    destruct (get_result (process_lines init lines).1 k) as [w|] eqn:Hw;
      simpl; [|done].
    intros ->. by apply (Hget k).
Qed.

Lemma never_set_value_unknown_witness :
  numequalto_result
    (process_lines init
       ["SET a 10"; "BEGIN"; "SET a 20 x"; "set a 30"; "ROLLBACK"; "GET 40"]).1
    "40"
  = 0.
Proof.
  apply (never_set_value_unknown
           ["SET a 10"; "BEGIN"; "SET a 20 x"; "set a 30"; "ROLLBACK"; "GET 40"]
           "40").
  repeat constructor; intros (c & key & rest & Hsplit & _);
    vm_compute in Hsplit; by simplify_eq.
Defined.
